(** * Account records editor: the records store and the HomeView commit logic

    A shallow embedding of [src/stores/records.ts] (the pinia store) and of
    the script part of [src/views/HomeView.vue] (validators, row builder,
    cell visibility, add / delete, commit), followed by the properties
    proved about them.

    Conventions.
    - A JavaScript string is the list of its UTF-16 code units, so that
      [length] is [String.prototype.length].
    - A JavaScript number that is used as an identifier or an index is an
      integer-valued double, an element of [Z]. Comparisons and [Math.max]
      are exact on them; the one addition, the [+ 1] of [addRow], is
      rounded to the nearest double ([roundToDouble]).
    - A call that may raise is a [Completion]: a normal value or a throw. *)

From Stdlib Require Import ZArith NArith List Bool Lia String Ascii DecimalString.
Import ListNotations.
Local Open Scope Z_scope.

(** ** JavaScript strings *)

Definition jsstring := list N.

(** An ASCII literal as a JavaScript string. *)
Definition js (s : string) : jsstring :=
  List.map N_of_ascii (list_ascii_of_string s).

Definition jsstring_eq_dec : forall a b : jsstring, {a = b} + {a <> b} :=
  list_eq_dec N.eq_dec.

(** [a === b] on two strings. *)
Definition str_eqb (a b : jsstring) : bool :=
  if jsstring_eq_dec a b then true else false.

(** [s.length] *)
Definition str_length (s : jsstring) : Z := Z.of_nat (List.length s).

(** ECMAScript WhiteSpace and LineTerminator code points, the ones
    [String.prototype.trim] strips. All of them are single code units. *)
Definition isWhiteSpace (c : N) : bool :=
  (existsb (N.eqb c)
     [0x0009; 0x000A; 0x000B; 0x000C; 0x000D; 0x0020; 0x00A0; 0x1680;
      0x2028; 0x2029; 0x202F; 0x205F; 0x3000; 0xFEFF]
   || ((0x2000 <=? c) && (c <=? 0x200A)))%N.

Fixpoint trimStart (s : jsstring) : jsstring :=
  match s with
  | [] => []
  | c :: s' => if isWhiteSpace c then trimStart s' else s
  end.

Definition trimEnd (s : jsstring) : jsstring := rev (trimStart (rev s)).

(** [s.trim()] *)
Definition trim (s : jsstring) : jsstring := trimEnd (trimStart s).

(** [s.split(sep)] for a separator of one code unit: the segments between
    the occurrences of [sep]; the empty string gives one empty segment. *)
Fixpoint split (sep : N) (s : jsstring) : list jsstring :=
  match s with
  | [] => [[]]
  | c :: s' =>
      if N.eqb c sep then [] :: split sep s'
      else match split sep s' with
           | seg :: rest => (c :: seg) :: rest
           | [] => [[c]]
           end
  end.

(** [l.join(sep)] on an array of strings. *)
Fixpoint join (sep : jsstring) (l : list jsstring) : jsstring :=
  match l with
  | [] => []
  | [x] => x
  | x :: rest => x ++ sep ++ join sep rest
  end.

Definition semicolon : N := 59%N.

(** ** JavaScript values and completions *)

(** [{ text: string }], an element of [Record['tags']]. *)
Record Label := { text : jsstring }.

(** [type SelectItem = { value: string; label: string }]; [value] is [None]
    when the property is [undefined], the case [required] tests for. *)
Record SelectItem := { value : option jsstring; label : jsstring }.

(** The values the functions below inspect dynamically. *)
Inductive jsval :=
| VUndefined
| VNull
| VNumber (n : Z)
| VString (s : jsstring)
| VLabel (l : Label)
| VSelectItem (it : SelectItem).

(** [Boolean(v)]: every object is truthy. *)
Definition Boolean (v : jsval) : bool :=
  match v with
  | VUndefined | VNull => false
  | VNumber n => negb (n =? 0)
  | VString s => negb (str_length s =? 0)
  | VLabel _ | VSelectItem _ => true
  end.

(** [a === b]; two object literals are never the same object. *)
Definition strictEq (a b : jsval) : bool :=
  match a, b with
  | VUndefined, VUndefined => true
  | VNull, VNull => true
  | VNumber x, VNumber y => x =? y
  | VString x, VString y => str_eqb x y
  | _, _ => false
  end.

Inductive JsError := TypeError.

Inductive Completion (A : Type) :=
| Normal (a : A)
| Throw (e : JsError).
Arguments Normal {A} a.
Arguments Throw {A} e.

(** ** Validators for inputs (HomeView.vue) *)

(** [string | true], what a rule returns. *)
Inductive RuleResult :=
| RTrue
| RMessage (msg : jsstring).

(** ['Это обязательное поле'] *)
Definition errorText : jsstring :=
  [1069; 1090; 1086; 32; 1086; 1073; 1103; 1079; 1072; 1090; 1077; 1083;
   1100; 1085; 1086; 1077; 32; 1087; 1086; 1083; 1077]%N.

(** [cond || errorText] *)
Definition orMessage (cond : bool) (msg : jsstring) : RuleResult :=
  if cond then RTrue else RMessage msg.

(** [required]: the [typeof val === 'string'] branch, otherwise the read of
    [val.value], which raises a TypeError on [undefined] and [null] and
    gives [undefined] on an object without that property. In the string
    branch [val !== undefined] holds, and [val.value !== undefined] is
    the test of the [option]. *)
Definition required (val : jsval) : Completion RuleResult :=
  match val with
  | VString s => Normal (orMessage (true && (0 <? str_length s)) errorText)
  | VUndefined | VNull => Throw TypeError
  | VSelectItem it =>
      match value it with
      | Some s => Normal (orMessage (true && (0 <? str_length s)) errorText)
      | None => Normal (orMessage false errorText)
      end
  | VNumber _ | VLabel _ => Normal (orMessage false errorText)
  end.

(** ['Максимальное количество символов - '] *)
Definition limitText : jsstring :=
  [1052; 1072; 1082; 1089; 1080; 1084; 1072; 1083; 1100; 1085; 1086; 1077;
   32; 1082; 1086; 1083; 1080; 1095; 1077; 1089; 1090; 1074; 1086; 32;
   1089; 1080; 1084; 1074; 1086; 1083; 1086; 1074; 32; 45; 32]%N.

(** [limitedLength(val, length)] for a string [val] and a non-negative
    integer [length], printed in decimal in the message. *)
Definition limitedLength (val : jsstring) (length : N) : RuleResult :=
  orMessage (str_length val <=? Z.of_N length)
            (limitText ++ js (NilZero.string_of_uint (N.to_uint length))).

(** [type Rule = (val: string) => string | true], as the rules are called. *)
Definition Rule := jsval -> Completion RuleResult.

Definition limitedLengthRule (length : N) : Rule :=
  fun val =>
    match val with
    | VString s => Normal (limitedLength s length)
    | VUndefined | VNull => Throw TypeError
    | _ => Normal (orMessage false (limitText ++ js (NilZero.string_of_uint (N.to_uint length))))
    end.

(** ** The records store (stores/records.ts) *)

(** What the [tags] property of a stored record holds at run time: the
    declared array of labels, or the raw string the commit of an empty
    tags cell writes there. *)
Inductive TagsValue :=
| TagList (labels : list Label)
| TagRaw (s : jsstring).

Module Rec.
(** [interface Record]; [password] is [None] for [null]. *)
Record t := mk {
  id : Z;
  tags : TagsValue;
  type : jsstring;
  login : jsstring;
  password : option jsstring
}.
End Rec.

Module Partial.
(** [Partial<Record>]: a property is [None] when the object literal does
    not have it. *)
Record t := mk {
  id : option Z;
  tags : option TagsValue;
  type : option jsstring;
  login : option jsstring;
  password : option (option jsstring)
}.
Definition empty : t := mk None None None None None.
End Partial.

(** [Object.assign(record, updatedFields)] *)
Definition Object_assign (record : Rec.t) (updatedFields : Partial.t) : Rec.t :=
  let pick {A} (o : option A) (old : A) : A :=
    match o with Some v => v | None => old end in
  Rec.mk (pick (Partial.id updatedFields) (Rec.id record))
         (pick (Partial.tags updatedFields) (Rec.tags record))
         (pick (Partial.type updatedFields) (Rec.type record))
         (pick (Partial.login updatedFields) (Rec.login record))
         (pick (Partial.password updatedFields) (Rec.password record)).

Definition Znachenie : jsstring :=
  [1047; 1085; 1072; 1095; 1077; 1085; 1080; 1077]%N.

Module recordsStore.

(** [state: () => ({ records: [...] })] *)
Definition state : list Rec.t :=
  [ Rec.mk 1 (TagList [ {| text := js "XXX" |} ]) (js "ldap") (js "") (Some (js ""));
    Rec.mk 2 (TagList [ {| text := js "XXX" |}; {| text := js "YYYYYYYYY" |} ])
           (js "local") Znachenie (Some (js ""));
    Rec.mk 3 (TagList []) (js "") Znachenie (Some Znachenie) ].

Definition getRecordById (records : list Rec.t) (id : Z) : option Rec.t :=
  find (fun record => Rec.id record =? id) records.

Definition addRecord (newRecord : Rec.t) (records : list Rec.t) : list Rec.t :=
  records ++ [newRecord].

(** [find] returns the first record with that id, a reference into the
    array, and [Object.assign] mutates it in place: the array keeps its
    other elements and its order. *)
Fixpoint updateRecord (id : Z) (updatedFields : Partial.t)
         (records : list Rec.t) : list Rec.t :=
  match records with
  | [] => []
  | record :: rest =>
      if Rec.id record =? id
      then Object_assign record updatedFields :: rest
      else record :: updateRecord id updatedFields rest
  end.

Definition removeRecord (id : Z) (records : list Rec.t) : list Rec.t :=
  filter (fun record => negb (Rec.id record =? id)) records.

End recordsStore.

(** ** Rows (HomeView.vue) *)

(** The rendered Quasar field a cell's [fieldRef] points to. Of the
    component only [validate()] is called; its answer at the time of the
    call is the field of this record. *)
Record FieldElement := { validate : bool }.

Inductive FieldKind := field_input | field_select.

Inductive InputType := type_text | type_password.

(** [InputProps | SelectProps] *)
Inductive FieldProps :=
| InputProps (type : InputType) (rules : list Rule)
| SelectProps (items : list SelectItem) (rules : list Rule).

Module Cell.
(** [RowInputElement] and [RowSelectElement]. The builder stores a
    string in [value] and the text inputs and the [emit-value] select
    write strings back, so [value] is a string here. *)
Record t := mk {
  fieldRef : option FieldElement;
  field : FieldKind;
  fieldProps : FieldProps;
  value : jsstring
}.
End Cell.

Module Row.
Record t := mk {
  id : Z;
  tags : Cell.t;
  type : Cell.t;
  login : Cell.t;
  password : Cell.t
}.
End Row.

(** The [name] of a column of [columns]. *)
Inductive ColName := col_tags | col_type | col_login | col_password | col_deletable.

Definition ColName_eqb (a b : ColName) : bool :=
  match a, b with
  | col_tags, col_tags | col_type, col_type | col_login, col_login
  | col_password, col_password | col_deletable, col_deletable => true
  | _, _ => false
  end.

(** [props.row[colName]]: a row has no [deletable] property. *)
Definition row_get (row : Row.t) (colName : ColName) : option Cell.t :=
  match colName with
  | col_tags => Some (Row.tags row)
  | col_type => Some (Row.type row)
  | col_login => Some (Row.login row)
  | col_password => Some (Row.password row)
  | col_deletable => None
  end.

(** [QTdProps['props']], the part the script reads. *)
Record Props := { row : Row.t; col_name : ColName }.

Definition recordTypes : list SelectItem :=
  [ {| value := Some (js "ldap"); label := js "LDAP" |};
    {| value := Some (js "local");
       label := [1051; 1086; 1082; 1072; 1083; 1100; 1085; 1072; 1103]%N |} ].

(** [unpackTags]: the empty string for what is not an array. *)
Definition unpackTags (tagsArray : TagsValue) : jsstring :=
  match tagsArray with
  | TagRaw _ => js ""
  | TagList l => join (js "; ") (List.map text l)
  end.

(** [constructRow(record)]; [unpackTags] always gives a string, so the
    [?? record.tags] alternative is never taken, and [password ?? ''] turns
    [null] into the empty string. *)
Definition constructRow (record : Rec.t) : Row.t :=
  let tags := unpackTags (Rec.tags record) in
  Row.mk (Rec.id record)
    (Cell.mk None field_input
       (InputProps type_text [limitedLengthRule 50]) tags)
    (Cell.mk None field_select
       (SelectProps recordTypes [required]) (Rec.type record))
    (Cell.mk None field_input
       (InputProps type_text [required; limitedLengthRule 100]) (Rec.login record))
    (Cell.mk None field_input
       (InputProps type_password [required; limitedLengthRule 100])
       (match Rec.password record with Some p => p | None => js "" end)).

(** The template's [:ref="(element) => (props.row[props.col.name].fieldRef = element)"]. *)
Definition setFieldRef (row : Row.t) (colName : ColName) (element : FieldElement) : Row.t :=
  let set (c : Cell.t) :=
    Cell.mk (Some element) (Cell.field c) (Cell.fieldProps c) (Cell.value c) in
  match colName with
  | col_tags => Row.mk (Row.id row) (set (Row.tags row)) (Row.type row) (Row.login row) (Row.password row)
  | col_type => Row.mk (Row.id row) (Row.tags row) (set (Row.type row)) (Row.login row) (Row.password row)
  | col_login => Row.mk (Row.id row) (Row.tags row) (Row.type row) (set (Row.login row)) (Row.password row)
  | col_password => Row.mk (Row.id row) (Row.tags row) (Row.type row) (Row.login row) (set (Row.password row))
  | col_deletable => row
  end.

(** The template's [v-model="props.row[props.col.name].value"]: the
    edited text is written into the cell. *)
Definition setValue (row : Row.t) (colName : ColName) (text0 : jsstring) : Row.t :=
  let set (c : Cell.t) :=
    Cell.mk (Cell.fieldRef c) (Cell.field c) (Cell.fieldProps c) text0 in
  match colName with
  | col_tags => Row.mk (Row.id row) (set (Row.tags row)) (Row.type row) (Row.login row) (Row.password row)
  | col_type => Row.mk (Row.id row) (Row.tags row) (set (Row.type row)) (Row.login row) (Row.password row)
  | col_login => Row.mk (Row.id row) (Row.tags row) (Row.type row) (set (Row.login row)) (Row.password row)
  | col_password => Row.mk (Row.id row) (Row.tags row) (Row.type row) (Row.login row) (set (Row.password row))
  | col_deletable => row
  end.

(** The state the script works on: the store's [records], and the
    component's [rows] and [isLoading] refs. *)
Record State := {
  records : list Rec.t;
  rows : list Row.t;
  isLoading : bool
}.

(** [rows = ref(recordsStore.records.map(constructRow))] at set-up. *)
Definition setup (records0 : list Rec.t) : State :=
  {| records := records0; rows := List.map constructRow records0; isLoading := false |}.

Definition initialState : State := setup recordsStore.state.

(** The [n]-th record of the store's initial list. *)
Definition initialRecord (n : nat) : Rec.t :=
  nth n recordsStore.state (Rec.mk 0 (TagList []) [] [] None).

(** A rendered field whose rules accept the current value. *)
Definition mounted : FieldElement := {| validate := true |}.

(** The row of [record] as the page holds it when the user has typed
    [text0] into the cell of column [colName]: built by [constructRow],
    bound to its rendered field, edited through [v-model]. *)
Definition editedRow (record : Rec.t) (colName : ColName) (text0 : jsstring) : Row.t :=
  setValue (setFieldRef (constructRow record) colName mounted) colName text0.

(** ** Array helpers *)

(** [l.findIndex(p)]: the index of the first element satisfying [p], or -1. *)
Fixpoint findIndex {A} (p : A -> bool) (l : list A) : Z :=
  match l with
  | [] => -1
  | x :: l' =>
      if p x then 0
      else let i := findIndex p l' in if i <? 0 then -1 else i + 1
  end.

(** A relative index of [slice]: counted from the end when negative,
    clamped to the array. *)
Definition relativeIndex (len k : Z) : Z :=
  if k <? 0 then Z.max (len + k) 0 else Z.min k len.

(** [l.slice(start, end)]; [end_] is [None] when the argument is omitted. *)
Definition slice {A} (start : Z) (end_ : option Z) (l : list A) : list A :=
  let len := Z.of_nat (List.length l) in
  let from := relativeIndex len start in
  let final := match end_ with Some e => relativeIndex len e | None => len end in
  firstn (Z.to_nat (final - from)) (skipn (Z.to_nat from) l).

(** [Math.max(...l)] for a non-empty [l] whose first element is [x]. *)
Definition Math_max (x : Z) (l : list Z) : Z := fold_left Z.max l x.

(** ** Delete, visibility, add and commit (HomeView.vue) *)

(** [deleteRow(id)]; the guard compares the number [findIndex] returned
    with [undefined]. *)
Definition deleteRow (id : Z) (st : State) : State :=
  let index := findIndex (fun row => Row.id row =? id) (rows st) in
  if negb (strictEq (VNumber index) VUndefined) then
    {| records := recordsStore.removeRecord id (records st);
       rows := slice 0 (Some index) (rows st) ++ slice (index + 1) None (rows st);
       isLoading := isLoading st |}
  else st.

Definition isInput (k : FieldKind) : bool :=
  match k with field_input => true | field_select => false end.

(** [passwordCellHide(props)], the [v-if] of the [q-td] that holds the
    [q-input]: the cell is rendered when the result is [true]. *)
Definition passwordCellHide (props : Props) : bool :=
  let colName := col_name props in
  let cell := row_get (row props) colName in
  if match cell with
     | Some c => isInput (Cell.field c) && negb (ColName_eqb colName col_password)
     | None => false
     end
  then true
  else if ColName_eqb colName col_password
          && negb (str_eqb (Cell.value (Row.type (row props))) (js "ldap"))
  then true
  else false.

(** The [colspan] of that [q-td]. *)
Definition colspan (props : Props) : Z :=
  if ColName_eqb (col_name props) col_login
     && str_eqb (Cell.value (Row.type (row props))) (js "ldap")
  then 2 else 1.

(** The double nearest to the integer [v], ties to the even significand:
    what the addition of two integer-valued doubles returns for their exact
    sum [v]. Up to 2^53 every integer is a double; beyond, the doubles
    around [v] are the multiples of [ulp], with 53-bit significand [q].
    (The overflow to [Infinity] is not met: for a double [x], [x + 1] is
    far below it or rounds back to [x].) *)
Definition roundToDouble (v : Z) : Z :=
  let a := Z.abs v in
  if a <=? 2 ^ 53 then v
  else
    let ulp := 2 ^ (Z.log2 a - 52) in
    let q := a / ulp in
    let r := a mod ulp in
    let q' :=
      if 2 * r <? ulp then q
      else if ulp <? 2 * r then q + 1
      else if Z.even q then q else q + 1 in
    Z.sgn v * (q' * ulp).

(** [Number.isSafeInteger(x)] on an integer. *)
Definition isSafeInteger (x : Z) : bool := Z.abs x <=? 2 ^ 53 - 1.

(** [latestId] of [addRow]; the [+ 1] is the addition of doubles. *)
Definition latestId (rows0 : list Row.t) : Z :=
  match List.map Row.id rows0 with
  | [] => 0
  | x :: ids => roundToDouble (Math_max x ids + 1)
  end.

(** [newRecord] of [addRow]. *)
Definition newRecord (id : Z) : Rec.t :=
  Rec.mk id (TagList []) (js "") (js "") (Some (js "")).

(** [addRow()]; [isLoading] is raised and lowered around the two writes. *)
Definition addRow (st : State) : State :=
  let record := newRecord (latestId (rows st)) in
  {| records := recordsStore.addRecord record (records st);
     rows := rows st ++ [constructRow record];
     isLoading := false |}.

(** The value a commit writes: the cell's string, or the array of labels
    built from it. *)
Inductive CommitValue :=
| CString (s : jsstring)
| CLabels (l : list Label).

(** [value.split(';').map((item) => ({ text: item.trim() })).filter(Boolean)] *)
Definition splitTags (value : jsstring) : list Label :=
  filter (fun item => Boolean (VLabel item))
         (List.map (fun item => {| text := trim item |}) (split semicolon value)).

(** [{ [field]: value }] *)
Definition fieldUpdate (field : ColName) (value : CommitValue) : Partial.t :=
  match field, value with
  | col_tags, CLabels l => Partial.mk None (Some (TagList l)) None None None
  | col_tags, CString s => Partial.mk None (Some (TagRaw s)) None None None
  | col_type, CString s => Partial.mk None None (Some s) None None
  | col_login, CString s => Partial.mk None None None (Some s) None
  | col_password, CString s => Partial.mk None None None None (Some (Some s))
  | _, _ => Partial.empty
  end.

(** [{ password: null }] *)
Definition passwordNull : Partial.t :=
  Partial.mk None None None None (Some None).

(** [value === 'ldap'] on the value being written. *)
Definition isLdap (value : CommitValue) : bool :=
  match value with
  | CString s => str_eqb s (js "ldap")
  | CLabels _ => false
  end.

(** [updateRecord(props)] of the view. Reading [.value] of a missing cell
    raises; a cell that is not mounted or does not validate leaves the
    store as it is. *)
Definition updateRecord (props : Props) (st : State) : Completion State :=
  let id := Row.id (row props) in
  let field := col_name props in
  match row_get (row props) field with
  | None => Throw TypeError
  | Some cell =>
      match Cell.fieldRef cell with
      | None => Normal st
      | Some fieldRef =>
          if negb (validate fieldRef) then Normal st
          else
            let value :=
              if ColName_eqb field col_tags && (0 <? str_length (Cell.value cell))
              then CLabels (splitTags (Cell.value cell))
              else CString (Cell.value cell) in
            let records1 :=
              recordsStore.updateRecord id (fieldUpdate field value) (records st) in
            let records2 :=
              if ColName_eqb field col_type && isLdap value
              then recordsStore.updateRecord id passwordNull records1
              else records1 in
            Normal {| records := records2; rows := rows st; isLoading := isLoading st |}
      end
  end.

(** ** Reachable states *)

(** An in-place write to the row at index [i] of [rows]. *)
Fixpoint updateRowAt (i : nat) (f : Row.t -> Row.t) (rows0 : list Row.t) : list Row.t :=
  match rows0, i with
  | [], _ => []
  | r :: rest, O => f r :: rest
  | r :: rest, S j => r :: updateRowAt j f rest
  end.

(** The [:ref] binding with what Vue passes to it: the rendered field
    when the cell is mounted, [null] when it is unmounted. *)
Definition assignFieldRef (row : Row.t) (colName : ColName)
           (element : option FieldElement) : Row.t :=
  let set (c : Cell.t) :=
    Cell.mk element (Cell.field c) (Cell.fieldProps c) (Cell.value c) in
  match colName with
  | col_tags => Row.mk (Row.id row) (set (Row.tags row)) (Row.type row) (Row.login row) (Row.password row)
  | col_type => Row.mk (Row.id row) (Row.tags row) (set (Row.type row)) (Row.login row) (Row.password row)
  | col_login => Row.mk (Row.id row) (Row.tags row) (Row.type row) (set (Row.login row)) (Row.password row)
  | col_password => Row.mk (Row.id row) (Row.tags row) (Row.type row) (Row.login row) (set (Row.password row))
  | col_deletable => row
  end.

(** The [@click] of the visibility icon, which the password cell alone
    has: [fieldProps.type = fieldProps.type === 'text' ? 'password' : 'text'].
    The password cell is a [RowInputElement]: its [fieldProps] are
    [InputProps]. *)
Definition togglePasswordType (row : Row.t) : Row.t :=
  let c := Row.password row in
  Row.mk (Row.id row) (Row.tags row) (Row.type row) (Row.login row)
    (Cell.mk (Cell.fieldRef c) (Cell.field c)
       (match Cell.fieldProps c with
        | InputProps type_text rules => InputProps type_password rules
        | InputProps type_password rules => InputProps type_text rules
        | SelectProps items rules => SelectProps items rules
        end)
       (Cell.value c)).

(** The states the page goes through from the stored list [records0] (the
    store's initial list, or the list the persistence plug-in restored):
    set-up, then any sequence of the template's writes into a row of
    [rows] (the [:ref] and [v-model] bindings, the visibility icon), of
    add, of delete and of commit. *)
Inductive reachableFrom (records0 : list Rec.t) : State -> Prop :=
| reach_setup : reachableFrom records0 (setup records0)
| reach_ref st i colName element :
    reachableFrom records0 st ->
    reachableFrom records0
      {| records := records st;
         rows := updateRowAt i (fun r => assignFieldRef r colName element) (rows st);
         isLoading := isLoading st |}
| reach_model st i colName text0 :
    reachableFrom records0 st ->
    reachableFrom records0
      {| records := records st;
         rows := updateRowAt i (fun r => setValue r colName text0) (rows st);
         isLoading := isLoading st |}
| reach_toggle st i :
    reachableFrom records0 st ->
    reachableFrom records0
      {| records := records st;
         rows := updateRowAt i togglePasswordType (rows st);
         isLoading := isLoading st |}
| reach_addRow st : reachableFrom records0 st -> reachableFrom records0 (addRow st)
| reach_deleteRow st id :
    reachableFrom records0 st -> reachableFrom records0 (deleteRow id st)
| reach_updateRecord st props st' :
    reachableFrom records0 st -> updateRecord props st = Normal st' ->
    reachableFrom records0 st'.

(** The states reached on a first visit, from the store's own list. *)
Definition reachable : State -> Prop := reachableFrom recordsStore.state.

(** The [:ref] write that binds one cell, given by the index of its row
    and its column, to its rendered field. *)
Definition refStep (st : State) (cell : nat * ColName) : State :=
  {| records := records st;
     rows := updateRowAt (fst cell)
               (fun r => assignFieldRef r (snd cell) (Some mounted)) (rows st);
     isLoading := isLoading st |}.

(** The page after its first render of the store's own list: every cell
    the table shows is bound to its field. The password cell of the first
    row, which is of type ['ldap'], is not shown. *)
Definition mountedState : State :=
  fold_left refStep
    [ (0%nat, col_tags); (0%nat, col_type); (0%nat, col_login);
      (1%nat, col_tags); (1%nat, col_type); (1%nat, col_login); (1%nat, col_password);
      (2%nat, col_tags); (2%nat, col_type); (2%nat, col_login); (2%nat, col_password) ]
    initialState.

(** The property of section 3 of the specification on one record: a
    password that is not [null] only on an ['ldap'] record. *)
Definition secretOnlyIfLdap (record : Rec.t) : bool :=
  match Rec.password record with
  | None => true
  | Some _ => str_eqb (Rec.type record) (js "ldap")
  end.

(** The tags transformation as the specification words it: split on [;],
    trim, drop the segments that are empty after trimming, wrap. *)
Definition splitTags_spec (value : jsstring) : list Label :=
  List.map (fun item => {| text := item |})
    (filter (fun item => negb (str_length item =? 0))
       (List.map trim (split semicolon value))).

(** A label text that survives the join / split round trip: not empty, no
    [;] in it, no white space at either end. *)
Definition cleanText (t : jsstring) : bool :=
  match t with
  | [] => false
  | c :: _ =>
      forallb (fun x => negb (N.eqb x semicolon)) t
      && negb (isWhiteSpace c) && negb (isWhiteSpace (last t c))
  end.

(** ** The template of HomeView.vue *)

(** The names of [columns], in the order of the table. *)
Definition columns : list ColName :=
  [col_tags; col_type; col_login; col_password; col_deletable].

(** [props.row[props.col.name].fieldProps.rules], what [:rules] binds. *)
Definition cellRules (c : Cell.t) : list Rule :=
  match Cell.fieldProps c with
  | InputProps _ rules => rules
  | SelectProps _ rules => rules
  end.

(** Every rule of the list returns [true] on the string [s]. *)
Definition accepts (rules : list Rule) (s : jsstring) : bool :=
  forallb (fun rule : Rule =>
             match rule (VString s) with
             | Normal RTrue => true
             | _ => false
             end) rules.

(** The [v-if] of the [q-td] that holds the [q-select]:
    [props.row[props.col.name] && props.row[props.col.name].field === 'select']. *)
Definition selectCellShown (props : Props) : bool :=
  match row_get (row props) (col_name props) with
  | Some c => negb (isInput (Cell.field c))
  | None => false
  end.

(** The [v-if] of the [q-td] that holds the delete button. *)
Definition deleteCellShown (props : Props) : bool :=
  ColName_eqb (col_name props) col_deletable.

(** The [q-td] elements the [body-cell] slot renders for one cell of the
    table, each given by its [colspan] (1 where none is bound). *)
Definition bodyCell (props : Props) : list Z :=
  (if passwordCellHide props then [colspan props] else [])
  ++ (if selectCellShown props then [1] else [])
  ++ (if deleteCellShown props then [1] else []).

(** The [q-td] elements of a whole table row. *)
Definition bodyRow (row0 : Row.t) : list Z :=
  flat_map (fun c => bodyCell {| row := row0; col_name := c |}) columns.

(** The [field] tags the [Row] interface declares: inputs for [tags],
    [login] and [password], a select for [type]. *)
Definition declaredKinds (row0 : Row.t) : bool :=
  isInput (Cell.field (Row.tags row0))
  && negb (isInput (Cell.field (Row.type row0)))
  && isInput (Cell.field (Row.login row0))
  && isInput (Cell.field (Row.password row0)).

(** The states the page goes through when it is driven by its own
    template: the [:ref] and [v-model] bindings and the visibility icon
    write into a row of [rows], a blur or a selection commits a cell of a
    row of [rows], the delete button of a row of [rows] calls [deleteRow]
    with that row's id, and the add button calls [addRow]. The add button
    is taken to be used while the row ids are safe integers, on which the
    [+ 1] of [addRow] is exact. *)
Inductive pageReachable (records0 : list Rec.t) : State -> Prop :=
| page_setup : pageReachable records0 (setup records0)
| page_ref st i colName element :
    pageReachable records0 st ->
    pageReachable records0
      {| records := records st;
         rows := updateRowAt i (fun r => assignFieldRef r colName element) (rows st);
         isLoading := isLoading st |}
| page_model st i colName text0 :
    pageReachable records0 st ->
    pageReachable records0
      {| records := records st;
         rows := updateRowAt i (fun r => setValue r colName text0) (rows st);
         isLoading := isLoading st |}
| page_toggle st i :
    pageReachable records0 st ->
    pageReachable records0
      {| records := records st;
         rows := updateRowAt i togglePasswordType (rows st);
         isLoading := isLoading st |}
| page_commit st row0 colName st' :
    pageReachable records0 st -> In row0 (rows st) ->
    updateRecord {| row := row0; col_name := colName |} st = Normal st' ->
    pageReachable records0 st'
| page_add st :
    pageReachable records0 st ->
    forallb isSafeInteger (List.map Row.id (rows st)) = true ->
    pageReachable records0 (addRow st)
| page_delete st row0 :
    pageReachable records0 st -> In row0 (rows st) ->
    pageReachable records0 (deleteRow (Row.id row0) st).

(** ** The in-component variant of the view

    The second script of [HomeView.vue] keeps its records in the component
    ([initialRecords], tags as plain strings) and has no store and no
    commit. Its [required], [limitedLength], [recordTypes] and [columns]
    are those above. *)

Module Legacy.

(** The numbers an id takes here: the integers, and [-Infinity], which is
    what [Math.max] of no argument returns. *)
Inductive num :=
| NegInfinity
| Num (z : Z).

(** [a === b] on these numbers. *)
Definition num_eqb (a b : num) : bool :=
  match a, b with
  | NegInfinity, NegInfinity => true
  | Num x, Num y => x =? y
  | _, _ => false
  end.

Definition num_max (a b : num) : num :=
  match a, b with
  | NegInfinity, y => y
  | x, NegInfinity => x
  | Num x, Num y => Num (Z.max x y)
  end.

(** [a + 1] *)
Definition num_succ (a : num) : num :=
  match a with
  | NegInfinity => NegInfinity
  | Num x => Num (roundToDouble (x + 1))
  end.

(** [Math.max(...l)] *)
Definition Math_max (l : list num) : num := fold_left num_max l NegInfinity.

Module Rec.
(** [interface Record] of this script: [tags: string[]]. *)
Record t := mk {
  id : num;
  tags : list jsstring;
  type : jsstring;
  login : jsstring;
  password : option jsstring
}.
End Rec.

(** [value: string[] | string | null] *)
Inductive CellValue :=
| LArray (l : list jsstring)
| LString (s : jsstring)
| LNull.

Module Cell.
Record t := mk {
  fieldRef : option FieldElement;
  field : FieldKind;
  fieldProps : FieldProps;
  value : CellValue
}.
End Cell.

Module Row.
Record t := mk {
  id : num;
  tags : Cell.t;
  type : Cell.t;
  login : Cell.t;
  password : Cell.t
}.
End Row.

Record Props := { row : Row.t; col_name : ColName }.

Definition initialRecords : list Rec.t :=
  [ Rec.mk (Num 1) [js "XXX"] (js "ldap") (js "") (Some (js ""));
    Rec.mk (Num 2) [js "XXX; YYYYYYYYY;"] (js "local") Znachenie (Some (js ""));
    Rec.mk (Num 3) [] (js "") Znachenie (Some Znachenie) ].

(** [constructRow(record, id = 0)]; [record] is [None] for [undefined]. *)
Definition constructRow (record : option Rec.t) (id : num) : Row.t :=
  Row.mk
    (match record with Some r => Rec.id r | None => id end)
    (Cell.mk None field_input (InputProps type_text [limitedLengthRule 50])
       (match record with Some r => LArray (Rec.tags r) | None => LString (js "") end))
    (Cell.mk None field_select (SelectProps recordTypes [required])
       (LString (match record with Some r => Rec.type r | None => js "" end)))
    (Cell.mk None field_input (InputProps type_text [required])
       (LString (match record with Some r => Rec.login r | None => js "" end)))
    (Cell.mk None field_input (InputProps type_password [required])
       (LString (match record with
                 | Some r => match Rec.password r with Some p => p | None => js "" end
                 | None => js ""
                 end))).

(** The initial value of [rows]. *)
Definition rows : list Row.t :=
  List.map (fun record => constructRow (Some record) (Num 0)) initialRecords.

Definition deleteRow (id : num) (rows0 : list Row.t) : list Row.t :=
  let index := findIndex (fun row0 => num_eqb (Row.id row0) id) rows0 in
  if negb (strictEq (VNumber index) VUndefined)
  then slice 0 (Some index) rows0 ++ slice (index + 1) None rows0
  else rows0.

Definition row_get (row0 : Row.t) (colName : ColName) : option Cell.t :=
  match colName with
  | col_tags => Some (Row.tags row0)
  | col_type => Some (Row.type row0)
  | col_login => Some (Row.login row0)
  | col_password => Some (Row.password row0)
  | col_deletable => None
  end.

(** [props.row.type.value !== 'ldap'] *)
Definition notLdap (v : CellValue) : bool :=
  match v with
  | LString s => negb (str_eqb s (js "ldap"))
  | LArray _ | LNull => true
  end.

(** [passwordCellHide(props)]: the answer, and the row after the write
    [props.row.password.value = null] of the second branch. *)
Definition passwordCellHide (props : Props) : bool * Row.t :=
  let colName := col_name props in
  let row0 := row props in
  let cell := row_get row0 colName in
  if match cell with
     | Some c => isInput (Cell.field c) && negb (ColName_eqb colName col_password)
     | None => false
     end
  then (true, row0)
  else if ColName_eqb colName col_password && notLdap (Cell.value (Row.type row0))
  then (true,
        Row.mk (Row.id row0) (Row.tags row0) (Row.type row0) (Row.login row0)
          (Cell.mk (Cell.fieldRef (Row.password row0)) (Cell.field (Row.password row0))
             (Cell.fieldProps (Row.password row0)) LNull))
  else (false, row0).

(** [addRow()] *)
Definition addRow (rows0 : list Row.t) : list Row.t :=
  let latestId := Math_max (List.map Row.id rows0) in
  rows0 ++ [constructRow None (num_succ latestId)].

End Legacy.

(** ** Auxiliary notions for the statements *)

(** [{ ...f, ...g }]: the properties of [g] over those of [f]. *)
Definition mergePartial (f g : Partial.t) : Partial.t :=
  let later {A} (a b : option A) : option A :=
    match b with Some _ => b | None => a end in
  Partial.mk (later (Partial.id f) (Partial.id g))
             (later (Partial.tags f) (Partial.tags g))
             (later (Partial.type f) (Partial.type g))
             (later (Partial.login f) (Partial.login g))
             (later (Partial.password f) (Partial.password g)).

(** The array without its first element satisfying [p]. *)
Fixpoint removeFirst {A} (p : A -> bool) (l : list A) : list A :=
  match l with
  | [] => []
  | x :: l' => if p x then l' else x :: removeFirst p l'
  end.

(** No white space at either end (the empty string included). *)
Definition trimmed (t : jsstring) : bool :=
  match t with
  | [] => true
  | c :: _ => negb (isWhiteSpace c) && negb (isWhiteSpace (last t c))
  end.

Definition noSemicolon (t : jsstring) : bool :=
  forallb (fun x => negb (N.eqb x semicolon)) t.

(** * Properties *)

(** ** Strings *)

Lemma str_eqb_eq (a b : jsstring) : str_eqb a b = true <-> a = b.
Proof.
  unfold str_eqb. destruct (jsstring_eq_dec a b); split; congruence.
Qed.

Lemma str_eqb_refl (a : jsstring) : str_eqb a a = true.
Proof. now apply str_eqb_eq. Qed.

Lemma str_eqb_neq (a b : jsstring) : str_eqb a b = false <-> a <> b.
Proof.
  unfold str_eqb. destruct (jsstring_eq_dec a b); split; congruence.
Qed.

Lemma split_cons_other (sep c : N) (s : jsstring) :
  N.eqb c sep = false ->
  split sep (c :: s)
  = match split sep s with
    | seg :: rest => (c :: seg) :: rest
    | [] => [[c]]
    end.
Proof. intros H. simpl. now rewrite H. Qed.

(** A segment without separator, followed by a separator, is the first
    element of the split. *)
Lemma split_segment (sep : N) (seg rest : jsstring) :
  forallb (fun x => negb (N.eqb x sep)) seg = true ->
  split sep (seg ++ sep :: rest) = seg :: split sep rest.
Proof.
  induction seg as [|c seg IH]; simpl; intros H.
  - now rewrite N.eqb_refl.
  - apply andb_true_iff in H as [Hc Hseg].
    apply negb_true_iff in Hc. rewrite Hc, (IH Hseg). reflexivity.
Qed.

Lemma split_last_segment (sep : N) (seg : jsstring) :
  forallb (fun x => negb (N.eqb x sep)) seg = true ->
  split sep seg = [seg].
Proof.
  induction seg as [|c seg IH]; simpl; intros H; [reflexivity|].
  apply andb_true_iff in H as [Hc Hseg].
  apply negb_true_iff in Hc. rewrite Hc, (IH Hseg). reflexivity.
Qed.

Lemma trimStart_head (c : N) (s : jsstring) :
  isWhiteSpace c = false -> trimStart (c :: s) = c :: s.
Proof. intros H; simpl; now rewrite H. Qed.

Lemma last_rev_head {A} (l : list A) (d : A) :
  l <> [] -> exists l', rev l = last l d :: l'.
Proof.
  intros Hl. destruct (exists_last Hl) as [l0 [x ->]].
  rewrite rev_app_distr, last_last. simpl. now exists (rev l0).
Qed.

Lemma trim_clean (t : jsstring) : cleanText t = true -> trim t = t.
Proof.
  destruct t as [|c t]; [discriminate|].
  unfold cleanText. intros H.
  apply andb_true_iff in H as [H Hlast].
  apply andb_true_iff in H as [_ Hhead].
  apply negb_true_iff in Hhead, Hlast.
  unfold trim, trimEnd. rewrite (trimStart_head _ _ Hhead).
  destruct (last_rev_head (c :: t) c) as [l' Hrev]; [discriminate|].
  rewrite Hrev, (trimStart_head _ _ Hlast), <- Hrev. apply rev_involutive.
Qed.

(** The space the join puts after each [;] is trimmed away. *)
Lemma trim_space_clean (t : jsstring) :
  cleanText t = true -> trim (32%N :: t) = t.
Proof.
  intros H. unfold trim. simpl trimStart.
  change (isWhiteSpace 32) with true. cbv iota.
  apply (trim_clean t H).
Qed.

Lemma cleanText_no_semicolon (t : jsstring) :
  cleanText t = true -> forallb (fun x => negb (N.eqb x semicolon)) t = true.
Proof.
  destruct t as [|c t]; [discriminate|]. unfold cleanText. intros H.
  apply andb_true_iff in H as [H _]. now apply andb_true_iff in H as [H _].
Qed.

Lemma filter_Boolean_labels (l : list Label) :
  filter (fun item => Boolean (VLabel item)) l = l.
Proof. induction l as [|x l IH]; simpl; [reflexivity | now f_equal]. Qed.

(** Splitting the joined texts gives the first text and, for each other
    text, that text behind one space. *)
Lemma split_join (t : jsstring) (ts : list jsstring) :
  forallb cleanText (t :: ts) = true ->
  split semicolon (join (js "; ") (t :: ts)) = t :: List.map (cons 32%N) ts.
Proof.
  revert t. induction ts as [|u ts IH]; intros t H.
  - simpl in H. rewrite andb_true_r in H. simpl join.
    now rewrite (split_last_segment _ _ (cleanText_no_semicolon _ H)).
  - change (forallb cleanText (t :: u :: ts))
      with (cleanText t && forallb cleanText (u :: ts)) in H.
    apply andb_true_iff in H as [Ht Hrest].
    change (join (js "; ") (t :: u :: ts))
      with (t ++ semicolon :: 32%N :: join (js "; ") (u :: ts)).
    rewrite (split_segment _ _ _ (cleanText_no_semicolon _ Ht)).
    assert (Hsp : split semicolon (32%N :: join (js "; ") (u :: ts))
                  = (32%N :: u) :: List.map (cons 32%N) ts).
    { rewrite split_cons_other by reflexivity.
      rewrite (IH u Hrest). reflexivity. }
    now rewrite Hsp.
Qed.

Lemma forallb_cleanText_texts (labels : list Label) :
  forallb (fun l => cleanText (text l)) labels = true ->
  forallb cleanText (List.map text labels) = true.
Proof.
  induction labels as [|k ks IH]; simpl; [reflexivity|].
  intros H. apply andb_true_iff in H as [Hk Hks].
  now rewrite Hk, (IH Hks).
Qed.

Lemma splitTags_join (labels : list Label) :
  labels <> [] ->
  forallb (fun l => cleanText (text l)) labels = true ->
  splitTags (join (js "; ") (List.map text labels)) = labels.
Proof.
  intros Hne H. destruct labels as [|l ls]; [congruence|].
  unfold splitTags. rewrite filter_Boolean_labels.
  change (List.map text (l :: ls)) with (text l :: List.map text ls).
  rewrite split_join.
  2:{ exact (forallb_cleanText_texts (l :: ls) H). }
  simpl in H. apply andb_true_iff in H as [Hl Hls].
  simpl List.map. rewrite (trim_clean _ Hl). destruct l as [tl]. simpl. f_equal.
  clear Hl Hne tl. induction ls as [|x ls IH]; [reflexivity|].
  simpl in Hls. apply andb_true_iff in Hls as [Hx Hls].
  simpl List.map. rewrite (trim_space_clean _ Hx), (IH Hls).
  now destruct x.
Qed.

(** ** The store *)

Section StoreUpdate.
Variables (id : Z) (updatedFields : Partial.t).

Lemma updateRecord_length (records0 : list Rec.t) :
  List.length (recordsStore.updateRecord id updatedFields records0)
  = List.length records0.
Proof.
  induction records0 as [|r rs IH]; simpl; [reflexivity|].
  destruct (Rec.id r =? id); simpl; congruence.
Qed.

Lemma updateRecord_absent (records0 : list Rec.t) :
  recordsStore.getRecordById records0 id = None ->
  recordsStore.updateRecord id updatedFields records0 = records0.
Proof.
  unfold recordsStore.getRecordById.
  induction records0 as [|r rs IH]; simpl; [reflexivity|].
  destruct (Rec.id r =? id); [discriminate|].
  intros H. now rewrite (IH H).
Qed.

Lemma updateRecord_present (records0 : list Rec.t) (record : Rec.t) :
  recordsStore.getRecordById records0 id = Some record ->
  exists before after,
    records0 = before ++ record :: after /\
    forallb (fun r => negb (Rec.id r =? id)) before = true /\
    recordsStore.updateRecord id updatedFields records0
    = before ++ Object_assign record updatedFields :: after.
Proof.
  unfold recordsStore.getRecordById.
  induction records0 as [|r rs IH]; simpl; [discriminate|].
  destruct (Rec.id r =? id) eqn:E.
  - intros H. injection H as ->. now exists [], rs.
  - intros H. destruct (IH H) as (before & after & Hrs & Hb & Hupd).
    exists (r :: before), after. simpl. rewrite E, Hb, Hupd.
    repeat split. now rewrite Hrs.
Qed.

(** After an update that does not rename the record, a look-up of the
    same id finds the updated record. *)
Lemma getRecordById_updateRecord (records0 : list Rec.t) (record : Rec.t) :
  Partial.id updatedFields = None ->
  recordsStore.getRecordById records0 id = Some record ->
  recordsStore.getRecordById
    (recordsStore.updateRecord id updatedFields records0) id
  = Some (Object_assign record updatedFields).
Proof.
  intros Hid. unfold recordsStore.getRecordById.
  induction records0 as [|r rs IH]; simpl; [discriminate|].
  destruct (Rec.id r =? id) eqn:E.
  - intros H. injection H as Hr. subst record.
    assert (Hsame : Rec.id (Object_assign r updatedFields) = Rec.id r)
      by (unfold Object_assign; now rewrite Hid).
    cbn [find]. now rewrite Hsame, E.
  - intros H. cbn [find]. rewrite E. now apply IH.
Qed.

Lemma updateRecord_ids (records0 : list Rec.t) :
  Partial.id updatedFields = None ->
  List.map Rec.id (recordsStore.updateRecord id updatedFields records0)
  = List.map Rec.id records0.
Proof.
  intros Hid. induction records0 as [|r rs IH]; simpl; [reflexivity|].
  destruct (Rec.id r =? id); simpl; [|now rewrite IH].
  unfold Object_assign. now rewrite Hid.
Qed.
End StoreUpdate.

Lemma fieldUpdate_keeps_id (field : ColName) (value : CommitValue) :
  Partial.id (fieldUpdate field value) = None.
Proof. destruct field, value; reflexivity. Qed.

(** ** Arrays *)

Lemma findIndex_none {A} (p : A -> bool) (l : list A) :
  forallb (fun x => negb (p x)) l = true -> findIndex p l = -1.
Proof.
  induction l as [|x l IH]; simpl; [reflexivity|].
  intros H. apply andb_true_iff in H as [Hx Hl].
  apply negb_true_iff in Hx. rewrite Hx, (IH Hl). reflexivity.
Qed.

Lemma findIndex_first {A} (p : A -> bool) (before after : list A) (x : A) :
  forallb (fun y => negb (p y)) before = true -> p x = true ->
  findIndex p (before ++ x :: after) = Z.of_nat (List.length before).
Proof.
  intros Hb Hx. induction before as [|y before IH]; simpl.
  - now rewrite Hx.
  - simpl in Hb. apply andb_true_iff in Hb as [Hy Hb].
    apply negb_true_iff in Hy. rewrite Hy, (IH Hb).
    destruct (Z.ltb_spec (Z.of_nat (List.length before)) 0); lia.
Qed.

(** Either no element satisfies [p], or the array splits at the first
    one that does. *)
Lemma find_split {A} (p : A -> bool) (l : list A) :
  forallb (fun x => negb (p x)) l = true \/
  exists before x after,
    l = before ++ x :: after /\
    forallb (fun y => negb (p y)) before = true /\ p x = true.
Proof.
  induction l as [|y l IH]; [now left|].
  destruct (p y) eqn:E.
  - right. now exists [], y, l.
  - destruct IH as [IH | (before & x & after & -> & Hb & Hx)].
    + left. simpl. now rewrite E.
    + right. exists (y :: before), x, after. simpl. now rewrite E.
Qed.

Lemma slice_prefix {A} (before after : list A) (x : A) :
  slice 0 (Some (Z.of_nat (List.length before))) (before ++ x :: after) = before.
Proof.
  unfold slice, relativeIndex. rewrite length_app. simpl List.length.
  change (0 <? 0) with false. cbv iota.
  destruct (Z.ltb_spec (Z.of_nat (List.length before)) 0); [lia|].
  rewrite Z.min_l, Z.min_l by lia. simpl skipn.
  rewrite Z.sub_0_r, Nat2Z.id. rewrite firstn_app, Nat.sub_diag, firstn_all.
  simpl. apply app_nil_r.
Qed.

Lemma slice_suffix {A} (before after : list A) (x : A) :
  slice (Z.of_nat (List.length before) + 1) None (before ++ x :: after) = after.
Proof.
  unfold slice, relativeIndex. rewrite length_app. simpl List.length.
  destruct (Z.ltb_spec (Z.of_nat (List.length before) + 1) 0); [lia|].
  rewrite Z.min_l by lia.
  replace (Z.to_nat (Z.of_nat (List.length before) + 1))
    with (List.length before + 1)%nat by lia.
  replace (before ++ x :: after) with ((before ++ [x]) ++ after)
    by (now rewrite <- app_assoc).
  rewrite skipn_app, skipn_all2 by (rewrite length_app; simpl; lia).
  rewrite length_app. simpl List.length.
  rewrite Nat.sub_diag. simpl.
  apply firstn_all2. lia.
Qed.

(** [l.slice(0, -1)] is [l] without its last element. *)
Lemma slice_to_minus_one {A} (l : list A) : slice 0 (Some (-1)) l = removelast l.
Proof.
  unfold slice, relativeIndex. change (0 <? 0) with false.
  change (-1 <? 0) with true. cbv iota.
  rewrite Z.min_l by lia. simpl skipn. rewrite Z.sub_0_r.
  destruct l as [|x l] using rev_ind; [reflexivity|].
  rewrite removelast_last, length_app. simpl List.length.
  replace (Z.to_nat (Z.max (Z.of_nat (List.length l + 1) + -1) 0))
    with (List.length l) by lia.
  rewrite firstn_app, Nat.sub_diag, firstn_all. simpl. apply app_nil_r.
Qed.

Lemma slice_from_zero {A} (l : list A) : slice 0 None l = l.
Proof.
  unfold slice, relativeIndex. change (0 <? 0) with false. cbv iota.
  rewrite Z.min_l by lia. simpl skipn. rewrite Z.sub_0_r, Nat2Z.id.
  apply firstn_all.
Qed.

Lemma Math_max_upper (l : list Z) (x y : Z) :
  In y (x :: l) -> y <= Math_max x l.
Proof.
  unfold Math_max. revert x. induction l as [|z l IH]; intros x H; simpl.
  - destruct H as [-> | []]. lia.
  - assert (Hmono : forall a b, a <= b -> fold_left Z.max l a <= fold_left Z.max l b).
    { clear. induction l as [|w l IHl]; simpl; intros a b Hab; [exact Hab|].
      apply IHl. lia. }
    destruct H as [-> | [-> | H]].
    + etransitivity; [apply (IH y); now left|]. apply Hmono. lia.
    + etransitivity; [apply (IH y); now left|]. apply Hmono. lia.
    + apply IH. now right.
Qed.

Lemma Math_max_in (l : list Z) (x : Z) : In (Math_max x l) (x :: l).
Proof.
  unfold Math_max. revert x. induction l as [|z l IH]; intros x; simpl.
  - now left.
  - destruct (IH (Z.max x z)) as [H | H].
    + rewrite <- H.
      destruct (Z.max_spec x z) as [[_ E] | [_ E]]; rewrite E; auto.
    + now right; right.
Qed.

(** ** The store's [updateRecord] *)

(** C8. [updateRecord(id, updatedFields)] of the store overwrites exactly
    the fields named in [updatedFields] on the first record whose id is
    [id]: the records before and after it, the order and the length of the
    list are unchanged, and each field of that record is the new value if
    the field is named and the old one otherwise. When no record has that
    id the list is unchanged. *)
Theorem store_updateRecord_frame
        (id : Z) (updatedFields : Partial.t) (records0 : list Rec.t) :
  List.length (recordsStore.updateRecord id updatedFields records0)
  = List.length records0
  /\ match recordsStore.getRecordById records0 id with
     | None => recordsStore.updateRecord id updatedFields records0 = records0
     | Some record =>
         exists before after,
           records0 = before ++ record :: after /\
           forallb (fun r => negb (Rec.id r =? id)) before = true /\
           recordsStore.updateRecord id updatedFields records0
           = before ++ Object_assign record updatedFields :: after
     end
  /\ forall record,
       let pick {A} (o : option A) (old : A) :=
         match o with Some v => v | None => old end in
       let record' := Object_assign record updatedFields in
       Rec.id record' = pick (Partial.id updatedFields) (Rec.id record) /\
       Rec.tags record' = pick (Partial.tags updatedFields) (Rec.tags record) /\
       Rec.type record' = pick (Partial.type updatedFields) (Rec.type record) /\
       Rec.login record' = pick (Partial.login updatedFields) (Rec.login record) /\
       Rec.password record'
       = pick (Partial.password updatedFields) (Rec.password record).
Proof.
  split; [apply updateRecord_length|]. split.
  - destruct (recordsStore.getRecordById records0 id) as [record|] eqn:E.
    + now apply updateRecord_present.
    + now apply updateRecord_absent.
  - intros record. simpl. repeat split.
Qed.

(** ** [required] *)

Lemma str_length_cons (c : N) (s : jsstring) : (0 <? str_length (c :: s)) = true.
Proof. apply Z.ltb_lt. unfold str_length. simpl List.length. lia. Qed.

(** C6, as the code has it. [required] returns the error text for the
    empty string and [true] for every string that is not empty; on a
    select item it looks at the [value] property and returns the error
    text exactly when that property is [undefined] or the empty string.
    The value [undefined] itself is not in the rule's argument type and
    is not part of this statement. *)
Theorem required_spec :
  required (VString (js "")) = Normal (RMessage errorText)
  /\ (forall c s, required (VString (c :: s)) = Normal RTrue)
  /\ required (VString (js "x")) = Normal RTrue
  /\ (forall it,
        required (VSelectItem it)
        = match value it with
          | None | Some [] => Normal (RMessage errorText)
          | Some (_ :: _) => Normal RTrue
          end).
Proof.
  split; [reflexivity|]. split.
  - intros c s. unfold required. now rewrite str_length_cons.
  - split; [reflexivity|].
    intros [[[|c s]|] lbl]; unfold required; simpl value; try reflexivity;
      now rewrite str_length_cons.
Qed.

(** C6 as stated fails on [undefined]: the [typeof] test sends it to the
    branch that reads [val.value], which raises instead of returning the
    error text. *)
Lemma required_undefined_throws :
  required VUndefined = Throw TypeError
  /\ ~ (exists msg, required VUndefined = Normal (RMessage msg)).
Proof.
  split; [reflexivity|]. intros [msg H]. discriminate H.
Qed.

(** ** Cell visibility *)

(** C2, as the code has it. The password cell of a row is rendered exactly
    when the row's type is not ['ldap']; on an ['ldap'] row it is hidden
    and the login cell spans its place. *)
Theorem passwordCell_rendered_iff_not_ldap (row0 : Row.t) :
  (passwordCellHide {| row := row0; col_name := col_password |} = true
   <-> Cell.value (Row.type row0) <> js "ldap")
  /\ (passwordCellHide {| row := row0; col_name := col_password |} = false
      <-> colspan {| row := row0; col_name := col_login |} = 2).
Proof.
  unfold passwordCellHide, colspan. simpl.
  rewrite andb_false_r. simpl.
  destruct (str_eqb (Cell.value (Row.type row0)) (js "ldap")) eqn:E; simpl.
  - apply str_eqb_eq in E. repeat split; congruence.
  - apply str_eqb_neq in E. repeat split; try congruence; discriminate.
Qed.

(** C2 as stated fails on the first row of the initial table: its type is
    ['ldap'] and its password cell is not rendered, while the second row,
    of type ['local'], has it rendered. *)
Lemma passwordCell_hidden_on_ldap_row :
  let row1 := constructRow (initialRecord 0) in
  let row2 := constructRow (initialRecord 1) in
  rows initialState = [row1; row2; constructRow (initialRecord 2)]
  /\ Cell.value (Row.type row1) = js "ldap"
  /\ passwordCellHide {| row := row1; col_name := col_password |} = false
  /\ Cell.value (Row.type row2) = js "local"
  /\ passwordCellHide {| row := row2; col_name := col_password |} = true
  /\ ~ (forall row0,
          passwordCellHide {| row := row0; col_name := col_password |} = true
          <-> Cell.value (Row.type row0) = js "ldap").
Proof.
  repeat split.
  intros H. destruct (H (constructRow (initialRecord 0))) as [_ H1].
  specialize (H1 eq_refl). discriminate H1.
Qed.

(** ** Commit *)

(** A validated commit of the type cell: the type is written, and the
    password is nulled by a second update when the new type is ['ldap']. *)
Lemma commit_type (st : State) (row0 : Row.t) (el : FieldElement) :
  Cell.fieldRef (Row.type row0) = Some el -> validate el = true ->
  updateRecord {| row := row0; col_name := col_type |} st
  = Normal
      {| records :=
           (let records1 :=
              recordsStore.updateRecord (Row.id row0)
                (Partial.mk None None (Some (Cell.value (Row.type row0))) None None)
                (records st) in
            if str_eqb (Cell.value (Row.type row0)) (js "ldap")
            then recordsStore.updateRecord (Row.id row0) passwordNull records1
            else records1);
         rows := rows st;
         isLoading := isLoading st |}.
Proof.
  intros Href Hvalid. unfold updateRecord. simpl.
  now rewrite Href, Hvalid.
Qed.

(** A validated commit of the tags cell. *)
Lemma commit_tags (st : State) (row0 : Row.t) (el : FieldElement) :
  Cell.fieldRef (Row.tags row0) = Some el -> validate el = true ->
  updateRecord {| row := row0; col_name := col_tags |} st
  = Normal
      {| records :=
           recordsStore.updateRecord (Row.id row0)
             (Partial.mk None
                (Some (if 0 <? str_length (Cell.value (Row.tags row0))
                       then TagList (splitTags (Cell.value (Row.tags row0)))
                       else TagRaw (Cell.value (Row.tags row0))))
                None None None)
             (records st);
         rows := rows st;
         isLoading := isLoading st |}.
Proof.
  intros Href Hvalid. unfold updateRecord. simpl.
  rewrite Href, Hvalid. simpl.
  now destruct (0 <? str_length (Cell.value (Row.tags row0))).
Qed.

(** C3. When the type cell is committed with the value ['ldap'] on a
    record that is in the store, the controller writes the type with a
    first update and [password: null] with a second one, so that the
    record then has type ['ldap'] and a null password; a later commit of
    the type ['local'] on the same record leaves the password null. *)
Theorem commit_ldap_then_local (st : State) (row0 : Row.t) (el : FieldElement)
        (record : Rec.t) :
  Cell.fieldRef (Row.type row0) = Some el -> validate el = true ->
  Cell.value (Row.type row0) = js "ldap" ->
  recordsStore.getRecordById (records st) (Row.id row0) = Some record ->
  exists st1 record1,
    updateRecord {| row := row0; col_name := col_type |} st = Normal st1
    /\ records st1
       = recordsStore.updateRecord (Row.id row0) passwordNull
           (recordsStore.updateRecord (Row.id row0)
              (Partial.mk None None (Some (js "ldap")) None None) (records st))
    /\ recordsStore.getRecordById (records st1) (Row.id row0) = Some record1
    /\ Rec.type record1 = js "ldap"
    /\ Rec.password record1 = None
    /\ forall row1 el1,
         Row.id row1 = Row.id row0 ->
         Cell.fieldRef (Row.type row1) = Some el1 -> validate el1 = true ->
         Cell.value (Row.type row1) = js "local" ->
         exists st2 record2,
           updateRecord {| row := row1; col_name := col_type |} st1 = Normal st2
           /\ recordsStore.getRecordById (records st2) (Row.id row0) = Some record2
           /\ Rec.type record2 = js "local"
           /\ Rec.password record2 = None.
Proof.
  intros Href Hvalid Hvalue Hfind.
  pose proof (commit_type st row0 el Href Hvalid) as Hcommit.
  rewrite Hvalue in Hcommit. rewrite str_eqb_refl in Hcommit. cbv zeta in Hcommit.
  set (f1 := Partial.mk None None (Some (js "ldap")) None None) in *.
  assert (H1 : recordsStore.getRecordById
                 (recordsStore.updateRecord (Row.id row0) passwordNull
                    (recordsStore.updateRecord (Row.id row0) f1 (records st)))
                 (Row.id row0)
               = Some (Object_assign (Object_assign record f1) passwordNull)).
  { apply getRecordById_updateRecord; [reflexivity|].
    now apply getRecordById_updateRecord. }
  eexists _, _. split; [exact Hcommit|]. simpl records.
  split; [reflexivity|]. split; [exact H1|].
  split; [reflexivity|]. split; [reflexivity|].
  intros row1 el1 Hid Href1 Hvalid1 Hvalue1.
  pose proof (commit_type
                {| records := recordsStore.updateRecord (Row.id row0) passwordNull
                                (recordsStore.updateRecord (Row.id row0) f1 (records st));
                   rows := rows st; isLoading := isLoading st |}
                row1 el1 Href1 Hvalid1) as Hcommit1.
  rewrite Hvalue1, Hid in Hcommit1.
  change (str_eqb (js "local") (js "ldap")) with false in Hcommit1.
  cbv zeta iota in Hcommit1. simpl records in Hcommit1.
  eexists _, _. split; [exact Hcommit1|]. simpl records.
  split.
  { apply getRecordById_updateRecord; [reflexivity | exact H1]. }
  split; reflexivity.
Qed.

Lemma commit_ldap_then_local_witness :
  exists st1 record1,
    updateRecord
      {| row := editedRow (initialRecord 1) col_type (js "ldap");
         col_name := col_type |} initialState = Normal st1
    /\ recordsStore.getRecordById (records st1) 2 = Some record1
    /\ Rec.type record1 = js "ldap"
    /\ Rec.password record1 = None.
Proof.
  destruct (commit_ldap_then_local initialState
              (editedRow (initialRecord 1) col_type (js "ldap"))
              mounted (initialRecord 1))
    as (st1 & record1 & H1 & _ & H2 & H3 & H4 & _); try reflexivity.
  exists st1, record1. repeat split; assumption.
Defined.

(** C1, as the code has it. The store keeps no relation between the
    password and the type of a record. What the commit controller does is
    this: a validated commit of the type cell on a stored record writes the
    new type, and leaves the record with a null password when the new type
    is ['ldap'] and with the password it had for every other type. *)
Theorem commit_type_password (st : State) (row0 : Row.t) (el : FieldElement)
        (record : Rec.t) :
  Cell.fieldRef (Row.type row0) = Some el -> validate el = true ->
  recordsStore.getRecordById (records st) (Row.id row0) = Some record ->
  exists st' record',
    updateRecord {| row := row0; col_name := col_type |} st = Normal st'
    /\ recordsStore.getRecordById (records st') (Row.id row0) = Some record'
    /\ Rec.type record' = Cell.value (Row.type row0)
    /\ Rec.password record'
       = if str_eqb (Cell.value (Row.type row0)) (js "ldap")
         then None else Rec.password record.
Proof.
  intros Href Hvalid Hfind.
  pose proof (commit_type st row0 el Href Hvalid) as Hcommit.
  cbv zeta in Hcommit.
  set (f1 := Partial.mk None None (Some (Cell.value (Row.type row0))) None None) in *.
  pose proof (getRecordById_updateRecord (Row.id row0) f1 (records st) record
                eq_refl Hfind) as H1.
  destruct (str_eqb (Cell.value (Row.type row0)) (js "ldap")).
  - pose proof (getRecordById_updateRecord (Row.id row0) passwordNull _ _
                  eq_refl H1) as H2.
    eexists _, _. split; [exact Hcommit|]. split; [exact H2|].
    split; reflexivity.
  - eexists _, _. split; [exact Hcommit|]. split; [exact H1|].
    split; reflexivity.
Qed.

Lemma commit_type_password_witness :
  exists st' record',
    updateRecord
      {| row := editedRow (initialRecord 0) col_type (js "local");
         col_name := col_type |} initialState = Normal st'
    /\ recordsStore.getRecordById (records st') 1 = Some record'
    /\ Rec.type record' = js "local"
    /\ Rec.password record' = Some (js "").
Proof.
  destruct (commit_type_password initialState
              (editedRow (initialRecord 0) col_type (js "local"))
              mounted (initialRecord 0))
    as (st' & record' & H1 & H2 & H3 & H4); try reflexivity.
  exists st', record'. repeat split; assumption.
Defined.

(** C1 as stated fails. The store's initial list, a reachable state, has
    records of type ['local'] and [''] whose password is not null; and on
    the first record, of type ['ldap'] with password [''], committing the
    type ['local'] leaves the password as it was. *)
Lemma initial_records_break_secret_invariant :
  ~ (forall st, reachable st -> forallb secretOnlyIfLdap (records st) = true)
  /\ exists st' record',
       Rec.type (initialRecord 0) = js "ldap"
       /\ updateRecord
            {| row := editedRow (initialRecord 0) col_type (js "local");
               col_name := col_type |} initialState = Normal st'
       /\ recordsStore.getRecordById (records st') 1 = Some record'
       /\ Rec.type record' = js "local"
       /\ Rec.password record' <> None.
Proof.
  split.
  - intros H. specialize (H initialState (reach_setup _)). discriminate H.
  - eexists _, _. split; [reflexivity|]. split; [reflexivity|].
    split; [reflexivity|]. split; [reflexivity|]. discriminate.
Qed.

(** ** The tags cell *)

(** C10. A validated commit of a tags cell whose text is the empty string
    skips the split and writes that string itself into the record's
    [tags]: the stored value is then a raw string, not an empty list of
    labels. *)
Theorem commit_empty_tags (st : State) (row0 : Row.t) (el : FieldElement) :
  Cell.fieldRef (Row.tags row0) = Some el -> validate el = true ->
  Cell.value (Row.tags row0) = js "" ->
  updateRecord {| row := row0; col_name := col_tags |} st
  = Normal
      {| records :=
           recordsStore.updateRecord (Row.id row0)
             (Partial.mk None (Some (TagRaw (js ""))) None None None) (records st);
         rows := rows st;
         isLoading := isLoading st |}
  /\ forall record,
       recordsStore.getRecordById (records st) (Row.id row0) = Some record ->
       exists record',
         recordsStore.getRecordById
           (recordsStore.updateRecord (Row.id row0)
              (Partial.mk None (Some (TagRaw (js ""))) None None None) (records st))
           (Row.id row0) = Some record'
         /\ Rec.tags record' = TagRaw (js "")
         /\ Rec.tags record' <> TagList [].
Proof.
  intros Href Hvalid Hvalue. split.
  - rewrite (commit_tags st row0 el Href Hvalid), Hvalue. reflexivity.
  - intros record Hfind. eexists. split.
    + apply getRecordById_updateRecord; [reflexivity | exact Hfind].
    + split; [reflexivity | discriminate].
Qed.

Lemma commit_empty_tags_witness :
  updateRecord
    {| row := editedRow (initialRecord 1) col_tags (js ""); col_name := col_tags |}
    initialState
  = Normal
      {| records :=
           recordsStore.updateRecord 2
             (Partial.mk None (Some (TagRaw (js ""))) None None None)
             recordsStore.state;
         rows := rows initialState;
         isLoading := false |}.
Proof.
  exact (proj1 (commit_empty_tags initialState
                  (editedRow (initialRecord 1) col_tags (js "")) mounted
                  eq_refl eq_refl eq_refl)).
Defined.

(** C4 at a text with a trailing separator, ['XXX; YYYYYYYYY;']: the
    commit stores three labels, the last one with the empty text, because
    [filter(Boolean)] runs on the wrapped objects, which are all truthy;
    splitting, trimming, dropping the empty segments and wrapping gives
    two labels. *)
Theorem commit_tags_keeps_empty_label :
  exists st' record',
    updateRecord
      {| row := editedRow (initialRecord 1) col_tags (js "XXX; YYYYYYYYY;");
         col_name := col_tags |} initialState = Normal st'
    /\ recordsStore.getRecordById (records st') 2 = Some record'
    /\ Rec.tags record'
       = TagList [ {| text := js "XXX" |}; {| text := js "YYYYYYYYY" |};
                   {| text := js "" |} ]
    /\ splitTags_spec (js "XXX; YYYYYYYYY;")
       = [ {| text := js "XXX" |}; {| text := js "YYYYYYYYY" |} ]
    /\ splitTags (js "a;;b")
       = [ {| text := js "a" |}; {| text := js "" |}; {| text := js "b" |} ].
Proof.
  eexists _, _. repeat split.
Qed.

Lemma join_nonempty (sep t : jsstring) (ts : list jsstring) :
  t <> [] -> (0 <? str_length (join sep (t :: ts))) = true.
Proof.
  intros Ht. destruct t as [|c t]; [congruence|].
  destruct ts as [|u ts]; [apply str_length_cons|].
  change (join sep ((c :: t) :: u :: ts))
    with (c :: (t ++ sep ++ join sep (u :: ts))).
  apply str_length_cons.
Qed.

(** C5, as the code has it. For a stored record whose tags are a list of
    labels that is not empty, each text clean (not empty, without [;],
    without white space at either end), the row builder's joined string,
    committed unchanged, is split back into the same list: the record's
    tags after the commit are the tags it had. *)
Theorem tags_round_trip (st : State) (record : Rec.t) (labels : list Label)
        (el : FieldElement) :
  Rec.tags record = TagList labels ->
  labels <> [] ->
  forallb (fun l => cleanText (text l)) labels = true ->
  recordsStore.getRecordById (records st) (Rec.id record) = Some record ->
  validate el = true ->
  Cell.value (Row.tags (constructRow record)) = join (js "; ") (List.map text labels)
  /\ splitTags (unpackTags (TagList labels)) = labels
  /\ exists st' record',
       updateRecord
         {| row := setFieldRef (constructRow record) col_tags el;
            col_name := col_tags |} st = Normal st'
       /\ recordsStore.getRecordById (records st') (Rec.id record) = Some record'
       /\ Rec.tags record' = TagList labels
       /\ record' = record.
Proof.
  intros Htags Hne Hclean Hfind Hvalid.
  pose proof (splitTags_join labels Hne Hclean) as Hsplit.
  assert (Hlen : (0 <? str_length (join (js "; ") (List.map text labels))) = true).
  { destruct labels as [|l ls]; [congruence|]. simpl List.map.
    apply join_nonempty. simpl in Hclean.
    apply andb_true_iff in Hclean as [Hl _]. now destruct (text l). }
  split; [simpl; now rewrite Htags|]. split; [exact Hsplit|].
  pose proof (commit_tags st (setFieldRef (constructRow record) col_tags el) el
                eq_refl Hvalid) as Hcommit.
  simpl Row.id in Hcommit. simpl Cell.value in Hcommit.
  rewrite Htags in Hcommit. simpl unpackTags in Hcommit.
  rewrite Hlen, Hsplit in Hcommit.
  eexists _, _. split; [exact Hcommit|]. simpl records.
  split; [apply getRecordById_updateRecord; [reflexivity | exact Hfind]|].
  split; [reflexivity|].
  destruct record; simpl in Htags; subst; reflexivity.
Qed.

Lemma tags_round_trip_witness :
  exists st',
    updateRecord
      {| row := setFieldRef (constructRow (initialRecord 1)) col_tags mounted;
         col_name := col_tags |} initialState = Normal st'
    /\ recordsStore.getRecordById (records st') 2 = Some (initialRecord 1).
Proof.
  destruct (tags_round_trip initialState (initialRecord 1)
              [ {| text := js "XXX" |}; {| text := js "YYYYYYYYY" |} ] mounted)
    as (_ & _ & st' & record' & H1 & H2 & _ & H3);
    try reflexivity; try discriminate.
  exists st'. split; [exact H1|]. now rewrite <- H3.
Defined.

(** C5 as stated fails on the empty list of labels, which meets its
    conditions: the third initial record has no labels, its row shows the
    empty string, and committing that string stores the string, not the
    empty list. *)
Lemma empty_tags_round_trip_fails :
  Rec.tags (initialRecord 2) = TagList []
  /\ forallb (fun l => cleanText (text l)) [] = true
  /\ exists st' record',
       updateRecord
         {| row := setFieldRef (constructRow (initialRecord 2)) col_tags mounted;
            col_name := col_tags |} initialState = Normal st'
       /\ recordsStore.getRecordById (records st') 3 = Some record'
       /\ Rec.tags record' = TagRaw (js "")
       /\ Rec.tags record' <> Rec.tags (initialRecord 2).
Proof.
  split; [reflexivity|]. split; [reflexivity|].
  eexists _, _. split; [reflexivity|]. split; [reflexivity|].
  split; [reflexivity | discriminate].
Qed.

(** ** Delete *)

Lemma deleteRow_records (id : Z) (st : State) :
  records (deleteRow id st) = recordsStore.removeRecord id (records st).
Proof. reflexivity. Qed.

(** Deleting an id that some row has removes the first row with it. *)
Lemma deleteRow_present (id : Z) (st : State) (before after : list Row.t) (x : Row.t) :
  rows st = before ++ x :: after ->
  forallb (fun r => negb (Row.id r =? id)) before = true ->
  Row.id x = id ->
  rows (deleteRow id st) = before ++ after.
Proof.
  intros Hrows Hb Hx. unfold deleteRow. simpl. rewrite Hrows.
  rewrite (findIndex_first (fun row => Row.id row =? id) before after x Hb)
    by (now apply Z.eqb_eq).
  now rewrite slice_prefix, slice_suffix.
Qed.

(** Deleting an id that no row has: [findIndex] answers -1, the guard
    lets it through, and the rows without the last one are put in front of
    all the rows. *)
Lemma deleteRow_absent (id : Z) (st : State) :
  forallb (fun r => negb (Row.id r =? id)) (rows st) = true ->
  rows (deleteRow id st) = removelast (rows st) ++ rows st.
Proof.
  intros Hnone. unfold deleteRow. simpl.
  rewrite (findIndex_none (fun row => Row.id row =? id) _ Hnone).
  change (-1 + 1) with 0.
  now rewrite slice_to_minus_one, slice_from_zero.
Qed.

(** C7 at an id that is absent, 99 on the initial table: the store is
    unchanged, but the table goes from the rows 1, 2, 3 to the rows
    1, 2, 1, 2, 3. Deleting the id 2, which is present, leaves the rows
    and the records 1 and 3. *)
Theorem deleteRow_absent_id_duplicates_rows :
  List.map Row.id (rows initialState) = [1; 2; 3]
  /\ records (deleteRow 99 initialState) = records initialState
  /\ List.map Row.id (rows (deleteRow 99 initialState)) = [1; 2; 1; 2; 3]
  /\ rows (deleteRow 99 initialState) <> rows initialState
  /\ List.map Row.id (rows (deleteRow 2 initialState)) = [1; 3]
  /\ List.map Rec.id (records (deleteRow 2 initialState)) = [1; 3].
Proof.
  split; [reflexivity|]. split; [reflexivity|]. split; [reflexivity|].
  split; [|split; reflexivity].
  intros H. apply (f_equal (@List.length Row.t)) in H. discriminate H.
Qed.

(** ** Add *)

Lemma removeRecord_ids (id y : Z) (records0 : list Rec.t) :
  In y (List.map Rec.id (recordsStore.removeRecord id records0)) ->
  In y (List.map Rec.id records0) /\ y <> id.
Proof.
  unfold recordsStore.removeRecord. intros H.
  apply in_map_iff in H as (r & <- & Hr).
  apply filter_In in Hr as [Hin Hneq].
  split; [now apply in_map|].
  apply negb_true_iff in Hneq. now apply Z.eqb_neq.
Qed.

(** A commit changes neither the rows nor the ids in the store. *)
Lemma updateRecord_keeps_ids (props : Props) (st st' : State) :
  updateRecord props st = Normal st' ->
  rows st' = rows st
  /\ List.map Rec.id (records st') = List.map Rec.id (records st).
Proof.
  unfold updateRecord.
  destruct (row_get (row props) (col_name props)) as [cell|]; [|discriminate].
  destruct (Cell.fieldRef cell) as [el|].
  2:{ intros H. injection H as <-. now split. }
  destruct (negb (validate el)).
  { intros H. injection H as <-. now split. }
  intros H. injection H as <-. simpl. split; [reflexivity|].
  match goal with
  | |- context [if ?c then _ else _] => destruct c
  end;
  rewrite ?updateRecord_ids; auto using fieldUpdate_keeps_id.
Qed.

Lemma updateRowAt_ids (i : nat) (f : Row.t -> Row.t) (rows0 : list Row.t) :
  (forall r, Row.id (f r) = Row.id r) ->
  List.map Row.id (updateRowAt i f rows0) = List.map Row.id rows0.
Proof.
  intros Hf. revert i. induction rows0 as [|r rs IH]; intros [|j]; simpl;
    try reflexivity.
  - now rewrite Hf.
  - now rewrite IH.
Qed.

Lemma setValue_id (row0 : Row.t) (c : ColName) (text0 : jsstring) :
  Row.id (setValue row0 c text0) = Row.id row0.
Proof. now destruct c. Qed.

Lemma assignFieldRef_id (row0 : Row.t) (c : ColName) (el : option FieldElement) :
  Row.id (assignFieldRef row0 c el) = Row.id row0.
Proof. now destruct c. Qed.

Lemma togglePasswordType_id (row0 : Row.t) :
  Row.id (togglePasswordType row0) = Row.id row0.
Proof. reflexivity. Qed.

(** Every id in the store is the id of a row. *)
Lemma reachable_store_ids (records0 : list Rec.t) (st : State) :
  reachableFrom records0 st ->
  incl (List.map Rec.id (records st)) (List.map Row.id (rows st)).
Proof.
  induction 1
    as [| st i c el _ IH | st i c text0 _ IH | st i _ IH
        | st _ IH | st id _ IH | st props st' _ IH Hstep].
  - simpl. rewrite map_map. simpl. apply incl_refl.
  - cbn [rows records]. rewrite updateRowAt_ids; [exact IH|].
    intros r. apply assignFieldRef_id.
  - cbn [rows records]. rewrite updateRowAt_ids; [exact IH|].
    intros r. apply setValue_id.
  - cbn [rows records]. rewrite updateRowAt_ids; [exact IH|].
    exact togglePasswordType_id.
  - simpl. unfold recordsStore.addRecord. rewrite !map_app. simpl.
    apply incl_app; [now apply incl_appl|].
    apply incl_appr, incl_refl.
  - intros y Hy. rewrite deleteRow_records in Hy.
    apply removeRecord_ids in Hy as [Hy Hneq]. apply IH in Hy.
    destruct (find_split (fun row => Row.id row =? id) (rows st))
      as [Hnone | (before & x & after & Hrows & Hb & Hx)].
    + rewrite (deleteRow_absent id st Hnone), map_app.
      apply in_or_app. now right.
    + apply Z.eqb_eq in Hx.
      rewrite (deleteRow_present id st before after x Hrows Hb Hx).
      rewrite Hrows, map_app in Hy. simpl in Hy. rewrite map_app.
      apply in_app_or in Hy as [Hy | [Hy | Hy]]; apply in_or_app; auto.
      congruence.
  - destruct (updateRecord_keeps_ids props st st' Hstep) as [-> ->]. exact IH.
Qed.

Lemma reachableFrom_refSteps (records0 : list Rec.t) (cells : list (nat * ColName))
      (st : State) :
  reachableFrom records0 st -> reachableFrom records0 (fold_left refStep cells st).
Proof.
  revert st. induction cells as [|cell cells IH]; intros st H; [exact H|].
  cbn [fold_left]. apply IH. unfold refStep. now apply reach_ref.
Qed.

Lemma reachable_mountedState : reachableFrom recordsStore.state mountedState.
Proof. apply reachableFrom_refSteps, reach_setup. Qed.

(** Up to 2^53 in absolute value the sum is a double: nothing is rounded. *)
Lemma roundToDouble_exact (v : Z) : Z.abs v <= 2 ^ 53 -> roundToDouble v = v.
Proof.
  intros H. unfold roundToDouble. apply Z.leb_le in H. now rewrite H.
Qed.

Lemma isSafeInteger_succ (m : Z) :
  isSafeInteger m = true -> roundToDouble (m + 1) = m + 1.
Proof.
  unfold isSafeInteger. intros H. apply Z.leb_le in H.
  apply roundToDouble_exact.
  change (2 ^ 53) with 9007199254740992 in *. lia.
Qed.

Lemma Math_max_safe (x : Z) (ids : list Z) :
  forallb isSafeInteger (x :: ids) = true -> isSafeInteger (Math_max x ids) = true.
Proof.
  intros H. rewrite forallb_forall in H. apply H, Math_max_in.
Qed.

(** On safe ids [latestId] is one more than the largest id. *)
Lemma latestId_safe (rows0 : list Row.t) (x : Z) (ids : list Z) :
  List.map Row.id rows0 = x :: ids ->
  forallb isSafeInteger (List.map Row.id rows0) = true ->
  latestId rows0 = Math_max x ids + 1.
Proof.
  intros E H. unfold latestId. rewrite E in *.
  apply isSafeInteger_succ. now apply Math_max_safe.
Qed.

Lemma latestId_fresh (rows0 : list Row.t) :
  forallb isSafeInteger (List.map Row.id rows0) = true ->
  ~ In (latestId rows0) (List.map Row.id rows0).
Proof.
  intros Hsafe. destruct (List.map Row.id rows0) as [|x ids] eqn:E; [intros []|].
  rewrite <- E in Hsafe. rewrite (latestId_safe rows0 x ids E Hsafe).
  intros H. apply Math_max_upper in H. lia.
Qed.

(** C9, as the code has it. In a state reached from set-up whose row ids
    are safe integers (at most 2^53 - 1 in absolute value), [addRow] gives
    the new record the id 0 when there is no row and one more than the
    largest row id otherwise; it appends the record
    [{id, tags: [], type: '', login: '', password: ''}] to the store and
    the row built from it to the rows; the id is the id of no row and of no
    stored record. Adding to the empty store gives the id 0, and adding
    when the ids are 0, 1 and 3 gives the id 4. *)
Theorem addRow_spec (records0 : list Rec.t) (st : State) :
  reachableFrom records0 st ->
  forallb isSafeInteger (List.map Row.id (rows st)) = true ->
  let newId := latestId (rows st) in
  (rows st = [] -> newId = 0)
  /\ (rows st <> [] ->
      exists m, In m (List.map Row.id (rows st))
                /\ (forall x, In x (List.map Row.id (rows st)) -> x <= m)
                /\ newId = m + 1)
  /\ records (addRow st)
     = records st ++ [Rec.mk newId (TagList []) (js "") (js "") (Some (js ""))]
  /\ rows (addRow st)
     = rows st
       ++ [constructRow (Rec.mk newId (TagList []) (js "") (js "") (Some (js "")))]
  /\ Row.id (constructRow (Rec.mk newId (TagList []) (js "") (js "") (Some (js ""))))
     = newId
  /\ ~ In newId (List.map Row.id (rows st))
  /\ ~ In newId (List.map Rec.id (records st))
  /\ List.map Rec.id (records (addRow (setup []))) = [0]
  /\ List.map Rec.id
       (records (addRow (setup [newRecord 0; newRecord 1; newRecord 3])))
     = [0; 1; 3; 4].
Proof.
  intros Hreach Hsafe newId. subst newId.
  split; [intros H; unfold latestId; now rewrite H|].
  split.
  { intros Hne.
    destruct (List.map Row.id (rows st)) as [|x ids] eqn:E.
    - destruct (rows st); [congruence | discriminate].
    - rewrite <- E in Hsafe. rewrite (latestId_safe (rows st) x ids E Hsafe).
      exists (Math_max x ids). split; [apply Math_max_in|].
      split; [intros y; apply Math_max_upper | reflexivity]. }
  split; [reflexivity|]. split; [reflexivity|]. split; [reflexivity|].
  split; [now apply latestId_fresh|].
  split; [|split; reflexivity].
  intros H. apply (reachable_store_ids records0 st Hreach) in H.
  exact (latestId_fresh (rows st) Hsafe H).
Qed.

Lemma addRow_spec_witness :
  records (addRow mountedState)
  = records mountedState ++ [Rec.mk 4 (TagList []) (js "") (js "") (Some (js ""))]
  /\ ~ In 4 (List.map Rec.id (records mountedState)).
Proof.
  destruct (addRow_spec recordsStore.state mountedState reachable_mountedState eq_refl)
    as (_ & _ & H1 & _ & _ & _ & H2 & _).
  split; [exact H1 | exact H2].
Defined.

(** C9 as stated fails beyond the safe integers. On the list restored from
    one record of id 2^53, a state of the page at set-up, the sum
    [2^53 + 1] is rounded to the double 2^53: [addRow] assigns 2^53, not
    one more than the largest id, and the store then holds two records of
    that id. *)
Lemma addRow_repeats_id_9007199254740992 :
  let records0 :=
    [Rec.mk 9007199254740992 (TagList []) (js "") (js "") (Some (js ""))] in
  reachableFrom records0 (setup records0)
  /\ latestId (rows (setup records0)) = 9007199254740992
  /\ latestId (rows (setup records0)) <> 9007199254740992 + 1
  /\ In (latestId (rows (setup records0))) (List.map Row.id (rows (setup records0)))
  /\ List.map Rec.id (records (addRow (setup records0)))
     = [9007199254740992; 9007199254740992].
Proof.
  split; [apply reach_setup|].
  split; [reflexivity|]. split; [discriminate|].
  split; [now left | reflexivity].
Qed.

(** * Further properties of the store and of the view *)

(** ** Look-ups in the store *)

Lemma getRecordById_app (records1 records2 : list Rec.t) (id : Z) :
  recordsStore.getRecordById (records1 ++ records2) id
  = match recordsStore.getRecordById records1 id with
    | Some x => Some x
    | None => recordsStore.getRecordById records2 id
    end.
Proof.
  unfold recordsStore.getRecordById.
  induction records1 as [|r rs IH]; simpl; [reflexivity|].
  now destruct (Rec.id r =? id).
Qed.

(** X1. A look-up after [addRecord] finds what it found before; only when
    it found nothing does it find the added record, if that has the id.
    A record pushed with an id that is already stored is never returned. *)
Theorem addRecord_lookup (record : Rec.t) (records0 : list Rec.t) (id : Z) :
  recordsStore.getRecordById (recordsStore.addRecord record records0) id
  = match recordsStore.getRecordById records0 id with
    | Some x => Some x
    | None => if Rec.id record =? id then Some record else None
    end.
Proof.
  unfold recordsStore.addRecord. rewrite getRecordById_app.
  destruct (recordsStore.getRecordById records0 id); [reflexivity|].
  unfold recordsStore.getRecordById. simpl. now destruct (Rec.id record =? id).
Qed.

Lemma removeRecord_fixed (id : Z) (records0 : list Rec.t) :
  recordsStore.removeRecord id records0 = records0
  <-> recordsStore.getRecordById records0 id = None.
Proof.
  unfold recordsStore.removeRecord, recordsStore.getRecordById.
  induction records0 as [|r rs IH]; simpl; [tauto|].
  destruct (Rec.id r =? id) eqn:E; simpl.
  - split; [|discriminate]. intros H.
    pose proof (filter_length_le (fun record => negb (Rec.id record =? id)) rs) as Hlen.
    apply (f_equal (@List.length Rec.t)) in H. simpl in H. lia.
  - split.
    + intros H. injection H as H. now apply IH.
    + intros H. f_equal. now apply IH.
Qed.

(** X2. After [removeRecord(id)] no record is found under [id], a look-up
    of any other id finds what it found before, removing again changes
    nothing, and the list is left as it was exactly when no record had
    the id. *)
Theorem removeRecord_lookup (id id' : Z) (records0 : list Rec.t) :
  recordsStore.getRecordById (recordsStore.removeRecord id records0) id'
  = (if id' =? id then None else recordsStore.getRecordById records0 id')
  /\ recordsStore.removeRecord id (recordsStore.removeRecord id records0)
     = recordsStore.removeRecord id records0
  /\ (recordsStore.removeRecord id records0 = records0
      <-> recordsStore.getRecordById records0 id = None).
Proof.
  split; [|split; [|apply removeRecord_fixed]].
  - unfold recordsStore.removeRecord, recordsStore.getRecordById.
    induction records0 as [|r rs IH]; simpl.
    + now destruct (id' =? id).
    + destruct (Rec.id r =? id) eqn:E; simpl.
      * rewrite IH. destruct (id' =? id) eqn:E'; [reflexivity|].
        destruct (Rec.id r =? id') eqn:E''; [|reflexivity].
        apply Z.eqb_eq in E, E''. apply Z.eqb_neq in E'. congruence.
      * destruct (Rec.id r =? id') eqn:E''; [|exact IH].
        destruct (id' =? id) eqn:E'; [|reflexivity].
        apply Z.eqb_eq in E', E''. apply Z.eqb_neq in E. congruence.
  - unfold recordsStore.removeRecord.
    induction records0 as [|r rs IH]; simpl; [reflexivity|].
    destruct (Rec.id r =? id) eqn:E; simpl; [exact IH|].
    rewrite E. simpl. now f_equal.
Qed.

Lemma getRecordById_after_update (id id' : Z) (updatedFields : Partial.t)
        (records0 : list Rec.t) :
  Partial.id updatedFields = None ->
  recordsStore.getRecordById
    (recordsStore.updateRecord id updatedFields records0) id'
  = if id' =? id
    then option_map (fun record => Object_assign record updatedFields)
                    (recordsStore.getRecordById records0 id)
    else recordsStore.getRecordById records0 id'.
Proof.
  intros Hid.
  assert (Hsame : forall r, Rec.id (Object_assign r updatedFields) = Rec.id r)
    by (intros r; unfold Object_assign; now rewrite Hid).
  unfold recordsStore.getRecordById.
  induction records0 as [|r rs IH]; simpl.
  - now destruct (id' =? id).
  - destruct (Rec.id r =? id) eqn:E; cbn [find].
    + rewrite Hsame. apply Z.eqb_eq in E. rewrite E.
      destruct (id' =? id) eqn:E'.
      * apply Z.eqb_eq in E'. subst id'. now rewrite Z.eqb_refl.
      * rewrite Z.eqb_sym, E'. reflexivity.
    + destruct (Rec.id r =? id') eqn:E''; [|exact IH].
      destruct (id' =? id) eqn:E'; [|reflexivity].
      apply Z.eqb_eq in E', E''. apply Z.eqb_neq in E. congruence.
Qed.

(** X3. For an update that does not write the [id] property, a look-up
    after [updateRecord(id, fields)] finds under [id] the record it found
    before with the fields assigned, and under any other id what it found
    before. *)
Theorem updateRecord_lookup (id id' : Z) (updatedFields : Partial.t)
        (records0 : list Rec.t) :
  Partial.id updatedFields = None ->
  recordsStore.getRecordById
    (recordsStore.updateRecord id updatedFields records0) id'
  = if id' =? id
    then option_map (fun record => Object_assign record updatedFields)
                    (recordsStore.getRecordById records0 id)
    else recordsStore.getRecordById records0 id'.
Proof. apply getRecordById_after_update. Qed.

Lemma updateRecord_lookup_witness :
  recordsStore.getRecordById
    (recordsStore.updateRecord 2 passwordNull recordsStore.state) 3
  = Some (initialRecord 2).
Proof.
  exact (updateRecord_lookup 2 3 passwordNull recordsStore.state eq_refl).
Defined.

Lemma Object_assign_merge (record : Rec.t) (f g : Partial.t) :
  Object_assign (Object_assign record f) g = Object_assign record (mergePartial f g).
Proof.
  destruct f as [fi ft fy fl fp], g as [gi gt gy gl gp].
  unfold Object_assign, mergePartial. simpl.
  destruct gi, gt, gy, gl, gp; reflexivity.
Qed.

(** X4. Two updates of the same id in a row, the first of which does not
    write the [id] property, are one update with the merged fields, the
    later fields winning; in particular repeating an update changes
    nothing more. *)
Theorem updateRecord_twice (id : Z) (f g : Partial.t) (records0 : list Rec.t) :
  Partial.id f = None ->
  recordsStore.updateRecord id g (recordsStore.updateRecord id f records0)
  = recordsStore.updateRecord id (mergePartial f g) records0
  /\ recordsStore.updateRecord id f (recordsStore.updateRecord id f records0)
     = recordsStore.updateRecord id f records0.
Proof.
  intros Hid.
  assert (Hsame : forall r, Rec.id (Object_assign r f) = Rec.id r)
    by (intros r; unfold Object_assign; now rewrite Hid).
  assert (Hmerge : forall g0,
             recordsStore.updateRecord id g0 (recordsStore.updateRecord id f records0)
             = recordsStore.updateRecord id (mergePartial f g0) records0).
  { intros g0. induction records0 as [|r rs IH]; [reflexivity|].
    cbn [recordsStore.updateRecord].
    destruct (Rec.id r =? id) eqn:E; cbn [recordsStore.updateRecord].
    - now rewrite Hsame, E, Object_assign_merge.
    - now rewrite E, IH. }
  split; [apply Hmerge|]. rewrite Hmerge. f_equal.
  destruct f as [fi ft fy fl fp]. unfold mergePartial. simpl.
  destruct fi, ft, fy, fl, fp; reflexivity.
Qed.

Lemma updateRecord_twice_witness :
  recordsStore.updateRecord 1 passwordNull
    (recordsStore.updateRecord 1 (Partial.mk None None (Some (js "ldap")) None None)
       recordsStore.state)
  = recordsStore.updateRecord 1
      (Partial.mk None None (Some (js "ldap")) None (Some None))
      recordsStore.state.
Proof.
  exact (proj1 (updateRecord_twice 1
                  (Partial.mk None None (Some (js "ldap")) None None)
                  passwordNull recordsStore.state eq_refl)).
Defined.

(** ** Trimming and splitting *)

Lemma trimStart_head_spec (s : jsstring) :
  match trimStart s with
  | [] => True
  | c :: _ => isWhiteSpace c = false
  end.
Proof.
  induction s as [|c s IH]; simpl; [exact I|].
  destruct (isWhiteSpace c) eqn:E; [exact IH | exact E].
Qed.

Lemma trimStart_snoc (a : jsstring) (c : N) :
  isWhiteSpace c = false -> trimStart (a ++ [c]) = trimStart a ++ [c].
Proof.
  intros Hc. induction a as [|x a IH]; simpl.
  - now rewrite Hc.
  - destruct (isWhiteSpace x); [exact IH | reflexivity].
Qed.

Lemma trimEnd_cons (c : N) (s : jsstring) :
  isWhiteSpace c = false -> trimEnd (c :: s) = c :: trimEnd s.
Proof.
  intros Hc. unfold trimEnd. simpl rev.
  rewrite (trimStart_snoc _ _ Hc), rev_app_distr. reflexivity.
Qed.

Lemma trimmed_cons_trimEnd (c : N) (s : jsstring) :
  isWhiteSpace c = false -> trimmed (c :: trimEnd s) = true.
Proof.
  intros Hc. unfold trimmed. rewrite Hc. simpl negb at 1.
  unfold trimEnd. pose proof (trimStart_head_spec (rev s)) as H.
  destruct (trimStart (rev s)) as [|d u].
  - simpl. now rewrite Hc.
  - simpl rev. rewrite app_comm_cons, last_last. now rewrite H.
Qed.

(** [trim] leaves no white space at either end. *)
Lemma trimmed_trim (s : jsstring) : trimmed (trim s) = true.
Proof.
  unfold trim. pose proof (trimStart_head_spec s) as H.
  destruct (trimStart s) as [|c s']; [reflexivity|].
  rewrite (trimEnd_cons _ _ H). now apply trimmed_cons_trimEnd.
Qed.

Lemma trim_trimmed (t : jsstring) : trimmed t = true -> trim t = t.
Proof.
  destruct t as [|c t]; [reflexivity|].
  unfold trimmed. intros H. apply andb_true_iff in H as [Hhead Hlast].
  apply negb_true_iff in Hhead, Hlast.
  unfold trim, trimEnd. rewrite (trimStart_head _ _ Hhead).
  destruct (last_rev_head (c :: t) c) as [l' Hrev]; [discriminate|].
  rewrite Hrev, (trimStart_head _ _ Hlast), <- Hrev. apply rev_involutive.
Qed.

Lemma trim_space (t : jsstring) : trim (32%N :: t) = trim t.
Proof. reflexivity. Qed.

Lemma forallb_trimStart (P : N -> bool) (s : jsstring) :
  forallb P s = true -> forallb P (trimStart s) = true.
Proof.
  induction s as [|c s IH]; simpl; [reflexivity|].
  intros H. destruct (isWhiteSpace c); [|exact H].
  apply andb_true_iff in H as [_ H]. now apply IH.
Qed.

Lemma forallb_rev (P : N -> bool) (s : jsstring) :
  forallb P s = true -> forallb P (rev s) = true.
Proof.
  rewrite !forallb_forall. intros H x Hx. apply H. now apply in_rev.
Qed.

Lemma noSemicolon_trim (s : jsstring) :
  noSemicolon s = true -> noSemicolon (trim s) = true.
Proof.
  unfold noSemicolon, trim, trimEnd. intros H.
  now apply forallb_rev, forallb_trimStart, forallb_rev, forallb_trimStart.
Qed.

(** No segment of a split contains the separator. *)
Lemma split_noSemicolon (s : jsstring) :
  forallb noSemicolon (split semicolon s) = true.
Proof.
  induction s as [|c s IH]; [reflexivity|].
  cbn [split]. destruct (N.eqb c semicolon) eqn:E.
  - cbn [forallb]. now rewrite IH.
  - destruct (split semicolon s) as [|seg rest]; cbn [forallb noSemicolon] in *.
    + now rewrite E.
    + now rewrite E.
Qed.

Lemma split_length (s : jsstring) :
  List.length (split semicolon s) = S (count_occ N.eq_dec s semicolon).
Proof.
  induction s as [|c s IH]; [reflexivity|].
  cbn [split count_occ]. destruct (N.eqb_spec c semicolon) as [E | E].
  - destruct (N.eq_dec c semicolon); [|congruence]. simpl. now rewrite IH.
  - destruct (N.eq_dec c semicolon); [congruence|]. rewrite <- IH.
    now destruct (split semicolon s).
Qed.

Lemma split_join_segments (t : jsstring) (ts : list jsstring) :
  forallb noSemicolon (t :: ts) = true ->
  split semicolon (join (js "; ") (t :: ts)) = t :: List.map (cons 32%N) ts.
Proof.
  revert t. induction ts as [|u ts IH]; intros t H.
  - simpl in H. rewrite andb_true_r in H. simpl join.
    now apply split_last_segment.
  - change (forallb noSemicolon (t :: u :: ts))
      with (noSemicolon t && forallb noSemicolon (u :: ts)) in H.
    apply andb_true_iff in H as [Ht Hrest].
    change (join (js "; ") (t :: u :: ts))
      with (t ++ semicolon :: 32%N :: join (js "; ") (u :: ts)).
    rewrite (split_segment _ _ _ Ht).
    rewrite split_cons_other by reflexivity.
    now rewrite (IH u Hrest).
Qed.

Lemma splitTags_texts (s : jsstring) :
  List.map text (splitTags s) = List.map trim (split semicolon s).
Proof.
  unfold splitTags. rewrite filter_Boolean_labels.
  induction (split semicolon s) as [|x l IH]; simpl; [reflexivity | now f_equal].
Qed.

(** X5. The commit's split never yields an empty list: a text with [n]
    separators gives [n + 1] labels, and no label text contains [;] or
    has white space at either end. *)
Theorem splitTags_shape (s : jsstring) :
  List.length (splitTags s) = S (count_occ N.eq_dec s semicolon)
  /\ forallb (fun l => noSemicolon (text l) && trimmed (text l)) (splitTags s) = true.
Proof.
  split.
  - rewrite <- (length_map text), splitTags_texts, length_map. apply split_length.
  - unfold splitTags. rewrite filter_Boolean_labels.
    pose proof (split_noSemicolon s) as H.
    induction (split semicolon s) as [|x l IH]; [reflexivity|].
    cbn [forallb] in H. apply andb_true_iff in H as [Hx Hl].
    cbn [List.map forallb text].
    now rewrite (noSemicolon_trim _ Hx), trimmed_trim, (IH Hl).
Qed.

Lemma map_trim_space (ts : list jsstring) :
  forallb trimmed ts = true ->
  List.map trim (List.map (cons 32%N) ts) = ts.
Proof.
  induction ts as [|t ts IH]; [reflexivity|].
  cbn [forallb List.map]. intros H. apply andb_true_iff in H as [Ht Hts].
  now rewrite trim_space, (trim_trimmed _ Ht), (IH Hts).
Qed.

(** Splitting and trimming the joined segments gives them back when they
    are without [;] and trimmed. *)
Lemma split_join_trimmed (ts : list jsstring) :
  ts <> [] ->
  forallb noSemicolon ts = true -> forallb trimmed ts = true ->
  List.map trim (split semicolon (join (js "; ") ts)) = ts.
Proof.
  intros Hne Hsemi Htrim. destruct ts as [|t ts]; [congruence|].
  rewrite (split_join_segments _ _ Hsemi).
  cbn [forallb] in Htrim. apply andb_true_iff in Htrim as [Ht Hts].
  cbn [List.map]. now rewrite (trim_trimmed _ Ht), (map_trim_space _ Hts).
Qed.

Lemma trimmed_segments (s : jsstring) :
  forallb noSemicolon (List.map trim (split semicolon s)) = true
  /\ forallb trimmed (List.map trim (split semicolon s)) = true
  /\ List.map trim (split semicolon s) <> [].
Proof.
  pose proof (split_noSemicolon s) as H.
  assert (Hne : split semicolon s <> []).
  { intros E. pose proof (split_length s) as L. rewrite E in L. discriminate L. }
  split; [|split].
  - clear Hne. induction (split semicolon s) as [|x l IH]; [reflexivity|].
    cbn [forallb] in H. apply andb_true_iff in H as [Hx Hl].
    cbn [List.map forallb]. now rewrite (noSemicolon_trim _ Hx), (IH Hl).
  - clear H Hne. induction (split semicolon s) as [|x l IH]; [reflexivity|].
    cbn [List.map forallb]. now rewrite trimmed_trim.
  - destruct (split semicolon s); [congruence | discriminate].
Qed.

Lemma map_text_inj (a b : list Label) :
  List.map text a = List.map text b -> a = b.
Proof.
  revert b. induction a as [|[x] a IH]; intros [|[y] b] H; try discriminate.
  - reflexivity.
  - simpl in H. injection H as -> H. f_equal. now apply IH.
Qed.

Lemma unpackTags_splitTags (s : jsstring) :
  unpackTags (TagList (splitTags s))
  = join (js "; ") (List.map trim (split semicolon s)).
Proof. unfold unpackTags. now rewrite splitTags_texts. Qed.

Lemma splitTags_stable (s : jsstring) :
  splitTags (unpackTags (TagList (splitTags s))) = splitTags s.
Proof.
  apply map_text_inj. rewrite unpackTags_splitTags, !splitTags_texts.
  destruct (trimmed_segments s) as (Hsemi & Htrim & Hne).
  now apply split_join_trimmed.
Qed.

(** X6. The text the row builder shows for the labels a commit stored is
    the committed text with every segment trimmed and the segments joined
    by ['; ']; and splitting that text again gives the same labels, so a
    stored list of labels survives being shown and committed again. *)
Theorem splitTags_unpackTags_stable (s : jsstring) :
  unpackTags (TagList (splitTags s))
  = join (js "; ") (List.map trim (split semicolon s))
  /\ splitTags (unpackTags (TagList (splitTags s))) = splitTags s.
Proof.
  split; [apply unpackTags_splitTags | apply splitTags_stable].
Qed.

Lemma getRecordById_id (records0 : list Rec.t) (id : Z) (record : Rec.t) :
  recordsStore.getRecordById records0 id = Some record -> Rec.id record = id.
Proof.
  unfold recordsStore.getRecordById. intros H.
  apply find_some in H as [_ H]. now apply Z.eqb_eq.
Qed.

(** The value a validated commit of the tags text [s] writes. *)
Lemma commit_tags_lookup (st : State) (row0 : Row.t) (el : FieldElement)
      (record : Rec.t) :
  Cell.fieldRef (Row.tags row0) = Some el -> validate el = true ->
  recordsStore.getRecordById (records st) (Row.id row0) = Some record ->
  exists st' record',
    updateRecord {| row := row0; col_name := col_tags |} st = Normal st'
    /\ recordsStore.getRecordById (records st') (Row.id row0) = Some record'
    /\ Rec.id record' = Row.id row0
    /\ Rec.tags record'
       = if 0 <? str_length (Cell.value (Row.tags row0))
         then TagList (splitTags (Cell.value (Row.tags row0)))
         else TagRaw (Cell.value (Row.tags row0)).
Proof.
  intros Href Hvalid Hfind.
  eexists _, _. split; [exact (commit_tags st row0 el Href Hvalid)|].
  simpl records. split.
  { apply getRecordById_updateRecord; [reflexivity | exact Hfind]. }
  split; [exact (getRecordById_id _ _ _ Hfind) | reflexivity].
Qed.

Lemma unpackTags_committed (s : jsstring) :
  unpackTags (if 0 <? str_length s then TagList (splitTags s) else TagRaw s)
  = join (js "; ") (List.map trim (split semicolon s)).
Proof.
  destruct s as [|c s]; [reflexivity|].
  rewrite str_length_cons. apply unpackTags_splitTags.
Qed.

(** X7. After a validated commit of a tags text on a stored record, the
    row rebuilt from the store shows that text with its segments trimmed
    and joined by ['; ']. Committing the rebuilt row unchanged shows the
    same text again, and leaves the stored tags as they are unless the
    shown text is empty, in which case the empty string is stored. *)
Theorem commit_tags_then_rebuild (st : State) (row0 : Row.t) (el : FieldElement)
        (record : Rec.t) :
  Cell.fieldRef (Row.tags row0) = Some el -> validate el = true ->
  recordsStore.getRecordById (records st) (Row.id row0) = Some record ->
  exists st' record',
    updateRecord {| row := row0; col_name := col_tags |} st = Normal st'
    /\ recordsStore.getRecordById (records st') (Row.id row0) = Some record'
    /\ Cell.value (Row.tags (constructRow record'))
       = join (js "; ") (List.map trim (split semicolon (Cell.value (Row.tags row0))))
    /\ forall el2, validate el2 = true ->
       exists st'' record'',
         updateRecord
           {| row := setFieldRef (constructRow record') col_tags el2;
              col_name := col_tags |} st' = Normal st''
         /\ recordsStore.getRecordById (records st'') (Row.id row0) = Some record''
         /\ Cell.value (Row.tags (constructRow record''))
            = Cell.value (Row.tags (constructRow record'))
         /\ Rec.tags record''
            = if 0 <? str_length (Cell.value (Row.tags (constructRow record')))
              then Rec.tags record' else TagRaw (js "").
Proof.
  intros Href Hvalid Hfind.
  destruct (commit_tags_lookup st row0 el record Href Hvalid Hfind)
    as (st' & record' & Hcommit & Hfind' & Hid' & Htags').
  exists st', record'. split; [exact Hcommit|]. split; [exact Hfind'|].
  assert (Hshow : Cell.value (Row.tags (constructRow record'))
                  = join (js "; ")
                      (List.map trim (split semicolon (Cell.value (Row.tags row0))))).
  { simpl. rewrite Htags'. apply unpackTags_committed. }
  split; [exact Hshow|].
  intros el2 Hvalid2.
  set (row2 := setFieldRef (constructRow record') col_tags el2).
  assert (Hid2 : Row.id row2 = Row.id row0) by exact Hid'.
  assert (Hval2 : Cell.value (Row.tags row2) = Cell.value (Row.tags (constructRow record')))
    by reflexivity.
  rewrite <- Hid2 in Hfind'.
  destruct (commit_tags_lookup st' row2 el2 record' eq_refl Hvalid2 Hfind')
    as (st'' & record'' & Hcommit2 & Hfind'' & _ & Htags'').
  rewrite Hid2 in Hfind''. rewrite Hval2 in Htags''.
  exists st'', record''. split; [exact Hcommit2|]. split; [exact Hfind''|].
  assert (Hstable : Rec.tags record''
                    = if 0 <? str_length (Cell.value (Row.tags (constructRow record')))
                      then Rec.tags record' else TagRaw (js "")).
  { rewrite Htags''.
    destruct (Cell.value (Row.tags (constructRow record'))) as [|c d] eqn:Ed;
      [reflexivity|].
    rewrite str_length_cons. rewrite Hshow.
    assert (Hs : (0 <? str_length (Cell.value (Row.tags row0))) = true).
    { destruct (Cell.value (Row.tags row0)) as [|c0 s0] eqn:Es.
      - discriminate Hshow.
      - apply str_length_cons. }
    rewrite Hs in Htags'. rewrite Htags'.
    rewrite <- unpackTags_splitTags.
    now rewrite splitTags_stable. }
  split; [|exact Hstable].
  change (Cell.value (Row.tags (constructRow record'')))
    with (unpackTags (Rec.tags record'')).
  rewrite Hstable.
  destruct (Cell.value (Row.tags (constructRow record'))) as [|c d] eqn:Ed.
  - reflexivity.
  - rewrite str_length_cons. rewrite <- Ed. reflexivity.
Qed.

Lemma commit_tags_then_rebuild_witness :
  exists st' record',
    updateRecord
      {| row := editedRow (initialRecord 0) col_tags (js " a ;b");
         col_name := col_tags |} initialState = Normal st'
    /\ recordsStore.getRecordById (records st') 1 = Some record'
    /\ Cell.value (Row.tags (constructRow record')) = js "a; b".
Proof.
  destruct (commit_tags_then_rebuild initialState
              (editedRow (initialRecord 0) col_tags (js " a ;b"))
              mounted (initialRecord 0) eq_refl eq_refl eq_refl)
    as (st' & record' & H1 & H2 & H3 & _).
  exists st', record'. split; [exact H1|]. split; [exact H2 | exact H3].
Defined.

(** ** Validation rules of a row *)

(** X8. The rules the row builder attaches accept a string exactly as
    follows: the tags cell up to 50 code units, the type cell when it is
    not empty, the login and the password cells from 1 to 100 code
    units. *)
Theorem constructRow_rules (record : Rec.t) (s : jsstring) :
  accepts (cellRules (Row.tags (constructRow record))) s = (str_length s <=? 50)
  /\ accepts (cellRules (Row.type (constructRow record))) s = (0 <? str_length s)
  /\ accepts (cellRules (Row.login (constructRow record))) s
     = (0 <? str_length s) && (str_length s <=? 100)
  /\ accepts (cellRules (Row.password (constructRow record))) s
     = (0 <? str_length s) && (str_length s <=? 100).
Proof.
  unfold accepts, cellRules, constructRow, limitedLengthRule, limitedLength, required.
  cbn [Row.tags Row.type Row.login Row.password Cell.fieldProps forallb andb].
  change (Z.of_N 50) with 50. change (Z.of_N 100) with 100.
  unfold orMessage.
  destruct (0 <? str_length s), (str_length s <=? 50), (str_length s <=? 100);
    repeat split.
Qed.

(** ** What the table renders *)

Lemma declaredKinds_constructRow (record : Rec.t) :
  declaredKinds (constructRow record) = true.
Proof. reflexivity. Qed.

Lemma declaredKinds_setValue (row0 : Row.t) (c : ColName) (text0 : jsstring) :
  declaredKinds (setValue row0 c text0) = declaredKinds row0.
Proof. now destruct c. Qed.

Lemma declaredKinds_setFieldRef (row0 : Row.t) (c : ColName) (el : FieldElement) :
  declaredKinds (setFieldRef row0 c el) = declaredKinds row0.
Proof. now destruct c. Qed.

(** X9. For a row whose cells have the kinds the [Row] interface
    declares, the [body-cell] slot renders exactly one [q-td] in every
    column, except that it renders none in the password column of an
    ['ldap'] row; the colspans of a row always add up to the five columns
    of the table. *)
Theorem bodyRow_fills_table (row0 : Row.t) :
  declaredKinds row0 = true ->
  (forall c,
     List.length (bodyCell {| row := row0; col_name := c |})
     = if ColName_eqb c col_password
          && str_eqb (Cell.value (Row.type row0)) (js "ldap")
       then 0%nat else 1%nat)
  /\ fold_right Z.add 0 (bodyRow row0) = 5.
Proof.
  unfold declaredKinds. intros H.
  apply andb_true_iff in H as [H Hp]. apply andb_true_iff in H as [H Hl].
  apply andb_true_iff in H as [Ht Hy]. apply negb_true_iff in Hy.
  split.
  - intros c. unfold bodyCell, passwordCellHide, colspan, selectCellShown, deleteCellShown.
    destruct c; cbn [row col_name row_get ColName_eqb andb negb];
      rewrite ?Ht, ?Hy, ?Hl, ?Hp; cbn [andb negb];
      try reflexivity.
    now destruct (str_eqb (Cell.value (Row.type row0)) (js "ldap")).
  - unfold bodyRow, columns, bodyCell, passwordCellHide, colspan, selectCellShown,
      deleteCellShown.
    cbn [flat_map row col_name row_get ColName_eqb andb negb].
    rewrite Ht, Hy, Hl, Hp. cbn [andb negb].
    now destruct (str_eqb (Cell.value (Row.type row0)) (js "ldap")).
Qed.

Lemma bodyRow_fills_table_witness :
  fold_right Z.add 0 (bodyRow (editedRow (initialRecord 0) col_login (js "admin"))) = 5.
Proof.
  exact (proj2 (bodyRow_fills_table
                  (editedRow (initialRecord 0) col_login (js "admin")) eq_refl)).
Defined.

(** ** What a commit leaves alone *)

(** The records a commit that goes through leaves in the store. *)
Lemma updateRecord_result (props : Props) (st st' : State) :
  updateRecord props st = Normal st' ->
  st' = st
  \/ exists f,
       Partial.id f = None
       /\ (records st' = recordsStore.updateRecord (Row.id (row props)) f (records st)
           \/ records st'
              = recordsStore.updateRecord (Row.id (row props)) passwordNull
                  (recordsStore.updateRecord (Row.id (row props)) f (records st))).
Proof.
  unfold updateRecord.
  destruct (row_get (row props) (col_name props)) as [cell|]; [|discriminate].
  destruct (Cell.fieldRef cell) as [el|].
  2:{ intros H. injection H as <-. now left. }
  destruct (negb (validate el)).
  { intros H. injection H as <-. now left. }
  intros H. injection H as <-. right. eexists. split; [apply fieldUpdate_keeps_id|].
  cbn [records].
  match goal with
  | |- context [if ?c then _ else _] => destruct c
  end; [right | left]; reflexivity.
Qed.

(** X10. A commit raises exactly on the [deletable] column, which has no
    cell. When it returns, the rows, the loading flag, the ids and the
    number of the stored records are as before, every record stored
    under another id than the row's is found unchanged, and a store
    without a record of the row's id is left as it was. A cell that is not
    mounted, or whose field does not validate, leaves the whole state as
    it was. *)
Theorem updateRecord_frame (props : Props) (st : State) :
  (updateRecord props st = Throw TypeError <-> col_name props = col_deletable)
  /\ (forall st',
        updateRecord props st = Normal st' ->
        rows st' = rows st
        /\ isLoading st' = isLoading st
        /\ List.map Rec.id (records st') = List.map Rec.id (records st)
        /\ (forall id', id' <> Row.id (row props) ->
              recordsStore.getRecordById (records st') id'
              = recordsStore.getRecordById (records st) id')
        /\ (recordsStore.getRecordById (records st) (Row.id (row props)) = None ->
            records st' = records st))
  /\ (forall cell,
        row_get (row props) (col_name props) = Some cell ->
        Cell.fieldRef cell = None
        \/ (exists el, Cell.fieldRef cell = Some el /\ validate el = false) ->
        updateRecord props st = Normal st).
Proof.
  split; [|split].
  - unfold updateRecord. destruct props as [row0 c]. cbn [row col_name].
    destruct c; cbn [row_get]; split; intros H; try discriminate H; try reflexivity;
      match type of H with
      | context [Cell.fieldRef ?cell] =>
          destruct (Cell.fieldRef cell) as [el|]; [|discriminate H];
          destruct (negb (validate el)); discriminate H
      end.
  - intros st' H.
    destruct (updateRecord_keeps_ids props st st' H) as [Hrows Hids].
    split; [exact Hrows|]. split.
    { revert H. unfold updateRecord.
      destruct (row_get (row props) (col_name props)) as [cell|]; [|discriminate].
      destruct (Cell.fieldRef cell) as [el|]; [|now intros H; injection H as <-].
      destruct (negb (validate el)); intros H; now injection H as <-. }
    split; [exact Hids|].
    destruct (updateRecord_result props st st' H) as [-> | (f & Hf & [E | E])].
    + split; [reflexivity | reflexivity].
    + split.
      * intros id' Hneq. rewrite E, (getRecordById_after_update _ _ _ _ Hf).
        apply Z.eqb_neq in Hneq. now rewrite Hneq.
      * intros Hnone. rewrite E. now apply updateRecord_absent.
    + split.
      * intros id' Hneq. apply Z.eqb_neq in Hneq.
        rewrite E, (getRecordById_after_update _ _ passwordNull _ eq_refl), Hneq.
        now rewrite (getRecordById_after_update _ _ _ _ Hf), Hneq.
      * intros Hnone. rewrite E.
        rewrite (updateRecord_absent _ f _ Hnone).
        now apply updateRecord_absent.
  - intros cell Hcell Href. unfold updateRecord. rewrite Hcell.
    destruct Href as [-> | (el & -> & ->)]; reflexivity.
Qed.

(** X11. A validated commit on a stored record writes the cell's column
    and nothing else: the id is kept, the login commit sets the login and
    the password commit sets the password to the cell's string (never to
    null), and every other property keeps its value, except that a type
    commit of ['ldap'] also nulls the password. *)
Theorem updateRecord_writes_one_field (st : State) (row0 : Row.t) (c : ColName)
        (cell : Cell.t) (el : FieldElement) (record : Rec.t) :
  row_get row0 c = Some cell ->
  Cell.fieldRef cell = Some el -> validate el = true ->
  recordsStore.getRecordById (records st) (Row.id row0) = Some record ->
  exists st' record',
    updateRecord {| row := row0; col_name := c |} st = Normal st'
    /\ recordsStore.getRecordById (records st') (Row.id row0) = Some record'
    /\ Rec.id record' = Rec.id record
    /\ Rec.tags record'
       = (if ColName_eqb c col_tags
          then if 0 <? str_length (Cell.value cell)
               then TagList (splitTags (Cell.value cell))
               else TagRaw (Cell.value cell)
          else Rec.tags record)
    /\ Rec.type record'
       = (if ColName_eqb c col_type then Cell.value cell else Rec.type record)
    /\ Rec.login record'
       = (if ColName_eqb c col_login then Cell.value cell else Rec.login record)
    /\ Rec.password record'
       = (if ColName_eqb c col_password then Some (Cell.value cell)
          else if ColName_eqb c col_type && str_eqb (Cell.value cell) (js "ldap")
               then None else Rec.password record).
Proof.
  intros Hcell Href Hvalid Hfind.
  unfold updateRecord. cbn [row col_name]. rewrite Hcell, Href, Hvalid.
  cbn [negb].
  destruct c; cbn [row_get] in Hcell; try discriminate Hcell;
    cbn [ColName_eqb andb].
  - (* tags *)
    eexists _, _. split; [reflexivity|]. cbn [records]. split.
    { apply getRecordById_updateRecord; [apply fieldUpdate_keeps_id | exact Hfind]. }
    destruct (0 <? str_length (Cell.value cell)); repeat split.
  - (* type *)
    cbn [isLdap fieldUpdate].
    destruct (str_eqb (Cell.value cell) (js "ldap")).
    + eexists _, _. split; [reflexivity|]. cbn [records]. split.
      { apply getRecordById_updateRecord; [reflexivity|].
        apply getRecordById_updateRecord; [reflexivity | exact Hfind]. }
      repeat split.
    + eexists _, _. split; [reflexivity|]. cbn [records]. split.
      { apply getRecordById_updateRecord; [reflexivity | exact Hfind]. }
      repeat split.
  - (* login *)
    eexists _, _. split; [reflexivity|]. cbn [records]. split.
    { apply getRecordById_updateRecord; [reflexivity | exact Hfind]. }
    repeat split.
  - (* password *)
    eexists _, _. split; [reflexivity|]. cbn [records]. split.
    { apply getRecordById_updateRecord; [reflexivity | exact Hfind]. }
    repeat split.
Qed.

Lemma updateRecord_writes_one_field_witness :
  exists st' record',
    updateRecord
      {| row := editedRow (initialRecord 1) col_login (js "root");
         col_name := col_login |} initialState = Normal st'
    /\ recordsStore.getRecordById (records st') 2 = Some record'
    /\ Rec.login record' = js "root"
    /\ Rec.password record' = Some (js "").
Proof.
  destruct (updateRecord_writes_one_field initialState
              (editedRow (initialRecord 1) col_login (js "root")) col_login
              _ mounted (initialRecord 1) eq_refl eq_refl eq_refl eq_refl)
    as (st' & record' & H1 & H2 & _ & _ & _ & H3 & H4).
  exists st', record'. repeat split; assumption.
Defined.

(** ** Rows and records side by side *)

Lemma removeRecord_map_id (id : Z) (records0 : list Rec.t) :
  List.map Rec.id (recordsStore.removeRecord id records0)
  = filter (fun y => negb (y =? id)) (List.map Rec.id records0).
Proof.
  unfold recordsStore.removeRecord.
  induction records0 as [|r rs IH]; simpl; [reflexivity|].
  destruct (Rec.id r =? id); simpl; now rewrite IH.
Qed.

Lemma filter_other_ids (id : Z) (l : list Z) :
  ~ In id l -> filter (fun y => negb (y =? id)) l = l.
Proof.
  intros H. apply forallb_filter_id, forallb_forall. intros y Hy.
  apply negb_true_iff, Z.eqb_neq. congruence.
Qed.

Lemma no_row_with_id (id : Z) (rows0 : list Row.t) :
  ~ In id (List.map Row.id rows0) ->
  forallb (fun r => negb (Row.id r =? id)) rows0 = true.
Proof.
  intros H. apply forallb_forall. intros r Hr.
  apply negb_true_iff, Z.eqb_neq. intros E. apply H. subst id. now apply in_map.
Qed.

Lemma no_record_with_id (id : Z) (records0 : list Rec.t) :
  ~ In id (List.map Rec.id records0) ->
  recordsStore.removeRecord id records0 = records0.
Proof.
  intros H. unfold recordsStore.removeRecord.
  apply forallb_filter_id, forallb_forall. intros r Hr.
  apply negb_true_iff, Z.eqb_neq. intros E. apply H. subst id. now apply in_map.
Qed.

(** On rows and records that carry the same ids in the same order,
    without repetition, deleting an id some row has takes out the row
    and the record at the same place. *)
Lemma deleteRow_aligned (id : Z) (st : State) :
  List.map Row.id (rows st) = List.map Rec.id (records st) ->
  NoDup (List.map Row.id (rows st)) ->
  In id (List.map Row.id (rows st)) ->
  exists rb x ra cb r ca,
    rows st = rb ++ x :: ra /\ records st = cb ++ r :: ca
    /\ Row.id x = id /\ Rec.id r = id
    /\ List.map Row.id rb = List.map Rec.id cb
    /\ List.map Row.id ra = List.map Rec.id ca
    /\ rows (deleteRow id st) = rb ++ ra
    /\ records (deleteRow id st) = cb ++ ca
    /\ ~ In id (List.map Row.id (rb ++ ra)).
Proof.
  intros Hal Hnd Hin.
  destruct (find_split (fun row => Row.id row =? id) (rows st))
    as [Hnone | (rb & x & ra & Hrows & Hb & Hx)].
  { exfalso. apply in_map_iff in Hin as (r & Hr & Hin).
    rewrite forallb_forall in Hnone. specialize (Hnone r Hin).
    apply negb_true_iff, Z.eqb_neq in Hnone. congruence. }
  apply Z.eqb_eq in Hx.
  pose proof Hal as Hal'. rewrite Hrows, map_app in Hal'. cbn [List.map] in Hal'.
  symmetry in Hal'.
  apply map_eq_app in Hal' as (cb & c2 & Hrec & Hcb & Hc2).
  apply map_eq_cons in Hc2 as (r & ca & -> & Hr & Hca).
  rewrite Hrows, map_app in Hnd. cbn [List.map] in Hnd.
  pose proof (NoDup_remove_2 _ _ _ Hnd) as Hfresh. rewrite Hx in Hfresh.
  exists rb, x, ra, cb, r, ca.
  split; [exact Hrows|]. split; [exact Hrec|]. split; [exact Hx|].
  split; [congruence|]. split; [now symmetry|]. split; [now symmetry|].
  split; [exact (deleteRow_present id st rb ra x Hrows Hb Hx)|].
  split; [|now rewrite map_app].
  rewrite deleteRow_records, Hrec. unfold recordsStore.removeRecord.
  rewrite filter_app. cbn [filter].
  assert (Hrid : (Rec.id r =? id) = true) by (apply Z.eqb_eq; congruence).
  rewrite Hrid. cbn [negb].
  assert (Hsplit : ~ In id (List.map Rec.id cb) /\ ~ In id (List.map Rec.id ca)).
  { rewrite Hcb, Hca. split; intros H; apply Hfresh, in_or_app; auto. }
  destruct Hsplit as [H1 H2].
  f_equal; [exact (no_record_with_id id cb H1) | exact (no_record_with_id id ca H2)].
Qed.

Lemma NoDup_snoc (l : list Z) (x : Z) : NoDup l -> ~ In x l -> NoDup (l ++ [x]).
Proof.
  intros Hl Hx. apply NoDup_app; [exact Hl | repeat constructor; intros [] |].
  intros a Ha [<- | []]. contradiction.
Qed.

(** X12. When the page is driven by its own template from a stored list
    without repeated ids, and rows are added only while the row ids are
    safe integers, the rows and the stored records carry the same ids in
    the same order at every moment, and no id is repeated: there is no
    row without its record and no record without its row. *)
Theorem page_rows_match_records (records0 : list Rec.t) (st : State) :
  NoDup (List.map Rec.id records0) ->
  pageReachable records0 st ->
  List.map Row.id (rows st) = List.map Rec.id (records st)
  /\ NoDup (List.map Rec.id (records st)).
Proof.
  intros Hnd Hreach.
  induction Hreach
    as [| st i c el _ [IH1 IH2] | st i c text0 _ [IH1 IH2] | st i _ [IH1 IH2]
        | st row0 c st' _ [IH1 IH2] _ Hstep | st _ [IH1 IH2] Hsafe
        | st row0 _ [IH1 IH2] Hin].
  - cbn [setup rows records]. rewrite map_map. now split.
  - cbn [rows records]. split; [|exact IH2].
    rewrite updateRowAt_ids; [exact IH1|]. intros r. apply assignFieldRef_id.
  - cbn [rows records]. split; [|exact IH2].
    rewrite updateRowAt_ids; [exact IH1|]. intros r. apply setValue_id.
  - cbn [rows records]. split; [|exact IH2].
    rewrite updateRowAt_ids; [exact IH1|]. exact togglePasswordType_id.
  - destruct (updateRecord_keeps_ids _ st st' Hstep) as [-> ->]. now split.
  - cbn [addRow rows records]. unfold recordsStore.addRecord.
    rewrite !map_app. cbn [List.map]. split; [now rewrite IH1|].
    apply NoDup_snoc; [exact IH2|]. rewrite <- IH1. now apply latestId_fresh.
  - assert (Hid : In (Row.id row0) (List.map Row.id (rows st))) by now apply in_map.
    assert (Hnd' : NoDup (List.map Row.id (rows st))) by now rewrite IH1.
    destruct (deleteRow_aligned (Row.id row0) st IH1 Hnd' Hid)
      as (rb & x & ra & cb & r & ca & Hrows & Hrec & _ & _ & Hb & Ha & -> & -> & _).
    rewrite !map_app, Hb, Ha. split; [reflexivity|].
    rewrite Hrec, map_app in IH2. cbn [List.map] in IH2.
    exact (NoDup_remove_1 _ _ _ IH2).
Qed.

Lemma initial_ids_NoDup : NoDup (List.map Rec.id recordsStore.state).
Proof.
  repeat constructor; simpl; intuition discriminate.
Qed.

Lemma page_rows_match_records_witness :
  List.map Row.id (rows (deleteRow 2 (addRow initialState)))
  = List.map Rec.id (records (deleteRow 2 (addRow initialState))).
Proof.
  refine (proj1 (page_rows_match_records recordsStore.state
                   (deleteRow 2 (addRow initialState)) initial_ids_NoDup _)).
  apply (page_delete _ (addRow initialState) (constructRow (initialRecord 1))).
  - apply page_add; [apply page_setup | reflexivity].
  - simpl. auto.
Defined.

(** X13. On rows and records that carry the same ids in the same order
    without repetition, [deleteRow] of an id some row has removes exactly
    the row and the record with that id, which sit at the same place, and
    keeps every other row and record in order; the id is gone from
    both. *)
Theorem deleteRow_removes_row_and_record (id : Z) (st : State) :
  List.map Row.id (rows st) = List.map Rec.id (records st) ->
  NoDup (List.map Row.id (rows st)) ->
  In id (List.map Row.id (rows st)) ->
  exists rb x ra cb r ca,
    rows st = rb ++ x :: ra /\ records st = cb ++ r :: ca
    /\ Row.id x = id /\ Rec.id r = id
    /\ List.length rb = List.length cb
    /\ rows (deleteRow id st) = rb ++ ra
    /\ records (deleteRow id st) = cb ++ ca
    /\ ~ In id (List.map Row.id (rows (deleteRow id st)))
    /\ ~ In id (List.map Rec.id (records (deleteRow id st))).
Proof.
  intros Hal Hnd Hin.
  destruct (deleteRow_aligned id st Hal Hnd Hin)
    as (rb & x & ra & cb & r & ca & Hrows & Hrec & Hx & Hr & Hb & Ha & Hrows' & Hrec'
        & Hfresh).
  exists rb, x, ra, cb, r, ca.
  split; [exact Hrows|]. split; [exact Hrec|]. split; [exact Hx|]. split; [exact Hr|].
  split.
  { apply (f_equal (@List.length Z)) in Hb. now rewrite !length_map in Hb. }
  split; [exact Hrows'|]. split; [exact Hrec'|].
  rewrite Hrows', Hrec'. split; [exact Hfresh|].
  now rewrite map_app, <- Hb, <- Ha, <- map_app.
Qed.

Lemma deleteRow_removes_row_and_record_witness :
  ~ In 2 (List.map Rec.id (records (deleteRow 2 initialState))).
Proof.
  destruct (deleteRow_removes_row_and_record 2 initialState eq_refl)
    as (rb & x & ra & cb & r & ca & _ & _ & _ & _ & _ & _ & _ & _ & H).
  - exact initial_ids_NoDup.
  - simpl. auto.
  - exact H.
Defined.

Lemma removelast_length {A} (l : list A) :
  List.length (removelast l) = Nat.pred (List.length l).
Proof.
  rewrite removelast_firstn_len, length_firstn. lia.
Qed.

(** X14. [deleteRow] of an id no row has does not leave the rows alone:
    the guard lets the index -1 through, and the rows become all rows but
    the last followed by all rows, so that [n] rows become [n + (n - 1)];
    they are unchanged only when there is at most one row. The store is
    unchanged when no record has the id. *)
Theorem deleteRow_absent_rows (id : Z) (st : State) :
  ~ In id (List.map Row.id (rows st)) ->
  rows (deleteRow id st) = removelast (rows st) ++ rows st
  /\ List.length (rows (deleteRow id st))
     = (List.length (rows st) + Nat.pred (List.length (rows st)))%nat
  /\ (rows (deleteRow id st) = rows st <-> (List.length (rows st) <= 1)%nat)
  /\ (~ In id (List.map Rec.id (records st)) ->
      records (deleteRow id st) = records st).
Proof.
  intros Hnone.
  pose proof (deleteRow_absent id st (no_row_with_id id _ Hnone)) as Hrows.
  split; [exact Hrows|]. rewrite Hrows.
  split; [rewrite length_app, removelast_length; lia|].
  split.
  - split.
    + intros H. apply (f_equal (@List.length Row.t)) in H.
      rewrite length_app, removelast_length in H. lia.
    + intros H. destruct (rows st) as [|r [|r' l]]; try reflexivity.
      simpl in H. lia.
  - intros Hrec. rewrite deleteRow_records. now apply no_record_with_id.
Qed.

Lemma deleteRow_absent_rows_witness :
  List.length (rows (deleteRow 7 initialState)) = 5%nat.
Proof.
  destruct (deleteRow_absent_rows 7 initialState) as (_ & H & _).
  - simpl. intuition discriminate.
  - exact H.
Defined.

(** ** Adding and deleting *)

Lemma deleteRow_unfold (id : Z) (st : State) :
  deleteRow id st
  = {| records := recordsStore.removeRecord id (records st);
       rows := rows (deleteRow id st);
       isLoading := isLoading st |}.
Proof. reflexivity. Qed.

(** X15. In a state reached from set-up whose row ids are safe integers,
    adding a row and deleting the row just added gives back the rows and
    the records there were; the next add then assigns the same id
    again. *)
Theorem addRow_then_deleteRow (records0 : list Rec.t) (st : State) :
  reachableFrom records0 st ->
  forallb isSafeInteger (List.map Row.id (rows st)) = true ->
  deleteRow (latestId (rows st)) (addRow st)
  = {| records := records st; rows := rows st; isLoading := false |}
  /\ latestId (rows (deleteRow (latestId (rows st)) (addRow st)))
     = latestId (rows st).
Proof.
  intros Hreach Hsafe.
  assert (Hrows : rows (deleteRow (latestId (rows st)) (addRow st)) = rows st).
  { rewrite (deleteRow_present (latestId (rows st)) (addRow st) (rows st) []
               (constructRow (newRecord (latestId (rows st))))).
    - apply app_nil_r.
    - reflexivity.
    - now apply no_row_with_id, latestId_fresh.
    - reflexivity. }
  split; [|now rewrite Hrows].
  rewrite deleteRow_unfold, Hrows. f_equal.
  cbn [addRow records]. unfold recordsStore.addRecord, recordsStore.removeRecord.
  rewrite filter_app. cbn [filter newRecord Rec.id].
  rewrite Z.eqb_refl. cbn [negb]. rewrite app_nil_r.
  apply no_record_with_id. intros H.
  apply (reachable_store_ids records0 st Hreach) in H.
  exact (latestId_fresh (rows st) Hsafe H).
Qed.

Lemma addRow_then_deleteRow_witness :
  deleteRow 4 (addRow mountedState)
  = {| records := recordsStore.state; rows := rows mountedState; isLoading := false |}.
Proof.
  exact (proj1 (addRow_then_deleteRow recordsStore.state mountedState
                  reachable_mountedState eq_refl)).
Defined.

Lemma Math_max_snoc (x y : Z) (l : list Z) :
  Math_max x (l ++ [y]) = Z.max (Math_max x l) y.
Proof. unfold Math_max. now rewrite fold_left_app. Qed.

(** On safe row ids the id an add assigns lies between -2^53 + 2 and 2^53,
    and the add after it assigns the double sum of that id and 1. *)
Lemma latestId_addRow_safe (st : State) :
  forallb isSafeInteger (List.map Row.id (rows st)) = true ->
  - 2 ^ 53 < latestId (rows st) <= 2 ^ 53
  /\ latestId (rows (addRow st)) = roundToDouble (latestId (rows st) + 1).
Proof.
  intros Hsafe. cbn [addRow rows]. unfold latestId at 3.
  rewrite map_app. cbn [List.map constructRow Row.id newRecord Rec.id].
  destruct (List.map Row.id (rows st)) as [|x ids] eqn:E.
  - unfold latestId. rewrite E. cbn [app Math_max fold_left].
    change (2 ^ 53) with 9007199254740992. split; [lia | reflexivity].
  - rewrite <- E in Hsafe. pose proof (latestId_safe (rows st) x ids E Hsafe) as Hn.
    rewrite E in Hsafe. apply Math_max_safe in Hsafe.
    unfold isSafeInteger in Hsafe. apply Z.leb_le in Hsafe.
    change (2 ^ 53) with 9007199254740992 in *.
    split; [lia|].
    cbn [app]. rewrite Math_max_snoc, Hn. f_equal. lia.
Qed.

(** X16. While the row ids are safe integers, successive adds assign
    consecutive ids: the add after an add assigns the id just assigned
    plus 1, as long as that id is below 2^53. An assigned id of 2^53 is
    assigned again by the next add, the double sum [2^53 + 1] being
    2^53. *)
Theorem addRow_ids_consecutive (st : State) :
  forallb isSafeInteger (List.map Row.id (rows st)) = true ->
  (latestId (rows st) < 2 ^ 53 ->
   latestId (rows (addRow st)) = latestId (rows st) + 1)
  /\ (latestId (rows st) = 2 ^ 53 ->
      latestId (rows (addRow st)) = latestId (rows st)).
Proof.
  intros Hsafe. destruct (latestId_addRow_safe st Hsafe) as [Hb ->].
  change (2 ^ 53) with 9007199254740992 in *. split.
  - intros Hlt. apply roundToDouble_exact.
    change (2 ^ 53) with 9007199254740992. lia.
  - intros ->. reflexivity.
Qed.

Lemma addRow_ids_consecutive_witness :
  latestId (rows (addRow initialState)) = 5
  /\ latestId
       (rows (addRow (setup [Rec.mk 9007199254740991 (TagList []) (js "") (js "")
                               (Some (js ""))])))
     = 9007199254740992.
Proof.
  split.
  - exact (proj1 (addRow_ids_consecutive initialState eq_refl) eq_refl).
  - exact (proj2 (addRow_ids_consecutive
                    (setup [Rec.mk 9007199254740991 (TagList []) (js "") (js "")
                              (Some (js ""))]) eq_refl) eq_refl).
Defined.

(** ** The in-component variant *)

Lemma legacy_Math_max_finite (x : Z) (zs : list Z) :
  Legacy.Math_max (List.map Legacy.Num (x :: zs)) = Legacy.Num (Math_max x zs).
Proof.
  unfold Legacy.Math_max, Math_max. cbn [List.map fold_left Legacy.num_max].
  revert x. induction zs as [|z zs IH]; intros x; [reflexivity|].
  cbn [List.map fold_left Legacy.num_max]. apply IH.
Qed.

(** X17. On a table that is not empty and whose ids are integers, the
    in-component [addRow] assigns the id the store-backed [addRow]
    assigns: the double sum of the largest id and 1. When the ids are
    safe integers that id is the id of no row. *)
Theorem legacy_addRow_agrees (rows0 : list Legacy.Row.t) (rows1 : list Row.t) :
  rows1 <> [] ->
  List.map Legacy.Row.id rows0 = List.map Legacy.Num (List.map Row.id rows1) ->
  Legacy.addRow rows0
  = rows0 ++ [Legacy.constructRow None (Legacy.Num (latestId rows1))]
  /\ (forallb isSafeInteger (List.map Row.id rows1) = true ->
      ~ In (Legacy.Num (latestId rows1)) (List.map Legacy.Row.id rows0)).
Proof.
  intros Hne Hids. split.
  - unfold Legacy.addRow, latestId. rewrite Hids.
    destruct (List.map Row.id rows1) as [|x zs] eqn:E.
    + destruct rows1; [congruence | discriminate E].
    + now rewrite legacy_Math_max_finite.
  - intros Hsafe. rewrite Hids. intros H. apply in_map_iff in H as (z & Hz & Hin).
    injection Hz as ->. exact (latestId_fresh rows1 Hsafe Hin).
Qed.

Lemma legacy_addRow_agrees_witness :
  Legacy.addRow Legacy.rows
  = Legacy.rows ++ [Legacy.constructRow None (Legacy.Num 4)]
  /\ ~ In (Legacy.Num 4) (List.map Legacy.Row.id Legacy.rows).
Proof.
  assert (Hne : rows initialState <> []) by discriminate.
  destruct (legacy_addRow_agrees Legacy.rows (rows initialState) Hne eq_refl)
    as [H1 H2].
  split; [exact H1 | exact (H2 eq_refl)].
Defined.

Lemma legacy_Math_max_repeat (n : nat) :
  Legacy.Math_max (repeat Legacy.NegInfinity n) = Legacy.NegInfinity.
Proof.
  unfold Legacy.Math_max. induction n as [|n IH]; [reflexivity | exact IH].
Qed.

(** X18. On the empty table the in-component [addRow] has no guard:
    [Math.max] of nothing is [-Infinity], and so is the id of the new row
    and of every row added after it. However many rows are added to an
    empty table, all of them carry the id [-Infinity]. *)
Theorem legacy_addRow_from_empty (n : nat) :
  List.map Legacy.Row.id (Nat.iter n Legacy.addRow [])
  = repeat Legacy.NegInfinity n.
Proof.
  induction n as [|n IH]; [reflexivity|].
  change (Nat.iter (S n) Legacy.addRow [])
    with (Legacy.addRow (Nat.iter n Legacy.addRow [])).
  set (prev := Nat.iter n Legacy.addRow []) in *.
  unfold Legacy.addRow.
  rewrite map_app, IH, legacy_Math_max_repeat.
  cbn [List.map Legacy.constructRow Legacy.Row.id Legacy.num_succ repeat].
  symmetry. apply repeat_cons.
Qed.

(** X19. The in-component [passwordCellHide] changes the row only when
    it is asked about the password column of a row that is not ['ldap']:
    it then answers [true] and nulls the value of the password cell,
    leaving the rest of the row. So a password cell that is rendered
    always holds [null], and a hidden one keeps its value. *)
Theorem legacy_passwordCellHide_effect (row0 : Legacy.Row.t) (c : ColName) :
  let props := {| Legacy.row := row0; Legacy.col_name := c |} in
  let shown := fst (Legacy.passwordCellHide props) in
  let row' := snd (Legacy.passwordCellHide props) in
  Legacy.Row.id row' = Legacy.Row.id row0
  /\ Legacy.Row.tags row' = Legacy.Row.tags row0
  /\ Legacy.Row.type row' = Legacy.Row.type row0
  /\ Legacy.Row.login row' = Legacy.Row.login row0
  /\ (if ColName_eqb c col_password
      then shown = Legacy.notLdap (Legacy.Cell.value (Legacy.Row.type row0))
           /\ Legacy.Cell.value (Legacy.Row.password row')
              = (if shown then Legacy.LNull
                 else Legacy.Cell.value (Legacy.Row.password row0))
      else row' = row0).
Proof.
  cbv zeta. unfold Legacy.passwordCellHide. cbn [Legacy.row Legacy.col_name].
  destruct c; cbn [Legacy.row_get ColName_eqb andb negb];
    rewrite ?andb_true_r, ?andb_false_r;
    try match goal with
        | |- context [isInput ?k] => destruct (isInput k)
        end;
    cbn [andb];
    try destruct (Legacy.notLdap (Legacy.Cell.value (Legacy.Row.type row0)));
    cbn [fst snd Legacy.Row.id Legacy.Row.tags Legacy.Row.type Legacy.Row.login
         Legacy.Row.password Legacy.Cell.value];
    repeat split.
Qed.

Lemma removeFirst_split {A} (p : A -> bool) (before after : list A) (x : A) :
  forallb (fun y => negb (p y)) before = true -> p x = true ->
  removeFirst p (before ++ x :: after) = before ++ after
  /\ existsb p (before ++ x :: after) = true.
Proof.
  intros Hb Hx. induction before as [|y before IH]; simpl.
  - now rewrite Hx.
  - simpl in Hb. apply andb_true_iff in Hb as [Hy Hb].
    apply negb_true_iff in Hy. rewrite Hy. destruct (IH Hb) as [-> ->]. now split.
Qed.

Lemma existsb_none {A} (p : A -> bool) (l : list A) :
  forallb (fun y => negb (p y)) l = true -> existsb p l = false.
Proof.
  induction l as [|y l IH]; simpl; [reflexivity|].
  intros H. apply andb_true_iff in H as [Hy Hl].
  apply negb_true_iff in Hy. now rewrite Hy, IH.
Qed.

(** X20. The in-component [deleteRow] removes the first row with the id
    when there is one; when there is none, the index -1 passes the guard
    and the table becomes all rows but the last followed by all rows. *)
Theorem legacy_deleteRow_spec (id : Legacy.num) (rows0 : list Legacy.Row.t) :
  Legacy.deleteRow id rows0
  = if existsb (fun r => Legacy.num_eqb (Legacy.Row.id r) id) rows0
    then removeFirst (fun r => Legacy.num_eqb (Legacy.Row.id r) id) rows0
    else removelast rows0 ++ rows0.
Proof.
  unfold Legacy.deleteRow. cbn [strictEq negb].
  destruct (find_split (fun r => Legacy.num_eqb (Legacy.Row.id r) id) rows0)
    as [Hnone | (before & x & after & -> & Hb & Hx)].
  - rewrite (existsb_none _ _ Hnone), (findIndex_none _ _ Hnone).
    change (-1 + 1) with 0. now rewrite slice_to_minus_one, slice_from_zero.
  - destruct (removeFirst_split _ before after x Hb Hx) as [-> ->].
    rewrite (findIndex_first _ before after x Hb Hx).
    now rewrite slice_prefix, slice_suffix.
Qed.
